(** * stacktracify: a shallow embedding of the stack-trace resolver

    The repository is one script kept in three revisions ([src/index.js],
    [src/unnamed/part_000], [src/unnamed/part_001]).  The frame-line
    normaliser, the resolver [findPositionInAllSourceMaps] and the per-frame
    renderer are the same text in all three; the loader and the checks that
    follow it differ.  The two revisions that load the documents one after
    the other are embedded in full ([Part001], [Part000]); [index.js] starts
    all loads at once through [Promise.all], and of it only the shared parts
    are embedded.

    JavaScript strings are sequences of UTF-16 code units, modelled as
    [list N].  The libraries the script calls ([fs-extra], [JSON],
    [source-map], [clipboardy], [stacktrace-parser], [meow]) are parameters
    of the model: each call may complete normally or throw. *)

From Stdlib Require Import ZArith NArith String Ascii DecimalString Decimal.
From stdpp Require Import base option list gmap.

Local Open Scope N_scope.

(** ** Strings *)

Definition jsstring : Type := list N.

(** The code units of an ASCII literal. *)
Definition js (s : string) : jsstring :=
  List.map N_of_ascii (list_ascii_of_string s).

(** [\s] of ECMAScript regular expressions: WhiteSpace and LineTerminator.
    [String.prototype.trim] strips the same set. *)
Definition is_space (c : N) : bool :=
  (9 <=? c) && (c <=? 13)
  || (c =? 32) || (c =? 160) || (c =? 5760)
  || (8192 <=? c) && (c <=? 8202)
  || (c =? 8232) || (c =? 8233) || (c =? 8239) || (c =? 8287)
  || (c =? 12288) || (c =? 65279).

(** [[^\s]] *)
Definition non_space (c : N) : bool := negb (is_space c).

(** [\d] *)
Definition is_digit (c : N) : bool := (48 <=? c) && (c <=? 57).

Definition colon : N := 58.

(** ** The regular expression of the normaliser

    Only the constructs that occur in
    [/^(\s+)([^\s]+:\d+:\d+)\s+([^\s]+)$/] are represented: a literal code
    unit, a greedy [+] over a character class, concatenation and a capture
    group.  There is no [g] or [m] flag, so [^] and [$] are the two ends of
    the subject string. *)

Inductive regex : Type :=
| Lit (c : N)
| Plus (cls : N -> bool)
| Cat (r1 r2 : regex)
| Grp (r : regex).

(** Captures are collected in the order in which their groups close; in the
    pattern above that is the order of their numbers. *)
Definition captures : Type := list jsstring.

(** What a group consumed: the prefix of [s] that is missing from its
    suffix [rest]. *)
Definition consumed (s rest : jsstring) : jsstring :=
  take (length s - length rest)%nat s.

(** Greedy [cls+] with backtracking: longest run first, then shorter ones,
    never fewer than one code unit.  [k] is the rest of the pattern. *)
Fixpoint plus_greedy {R : Type} (cls : N -> bool) (s : jsstring)
    (k : jsstring -> option R) : option R :=
  match s with
  | [] => None
  | c :: s' =>
      if cls c then
        match plus_greedy cls s' k with
        | Some r => Some r
        | None => k s'
        end
      else None
  end.

(** Backtracking matcher in continuation-passing style. *)
Fixpoint rmatch (r : regex) (s : jsstring) (caps : captures)
    (k : jsstring -> captures -> option captures) : option captures :=
  match r with
  | Lit c =>
      match s with
      | x :: s' => if x =? c then k s' caps else None
      | [] => None
      end
  | Plus cls => plus_greedy cls s (fun s' => k s' caps)
  | Cat r1 r2 => rmatch r1 s caps (fun s1 c1 => rmatch r2 s1 c1 k)
  | Grp r1 => rmatch r1 s caps (fun s' c' => k s' (c' ++ [consumed s s']))
  end.

(** [line.match(re)] for a pattern anchored at both ends. *)
Definition exec (r : regex) (line : jsstring) : option captures :=
  rmatch r line [] (fun rest caps => match rest with [] => Some caps | _ => None end).

(** [/^(\s+)([^\s]+:\d+:\d+)\s+([^\s]+)$/] *)
Definition frame_re : regex :=
  Cat (Grp (Plus is_space))
   (Cat (Grp (Cat (Plus non_space)
              (Cat (Lit colon) (Cat (Plus is_digit)
               (Cat (Lit colon) (Plus is_digit))))))
    (Cat (Plus is_space)
         (Grp (Plus non_space)))).

(** The callback of [lines.map(...)]:
    [`${match[1]}at ${match[3]} (${match[2]})`] on a match, else the line. *)
Definition normalize (line : jsstring) : jsstring :=
  match exec frame_re line with
  | Some [m1; m2; m3] => m1 ++ js "at " ++ m3 ++ js " (" ++ m2 ++ js ")"
  | _ => line
  end.

(** ** More of [String.prototype] *)

Fixpoint drop_spaces (s : jsstring) : jsstring :=
  match s with
  | c :: s' => if is_space c then drop_spaces s' else s
  | [] => []
  end.

(** [str.trim()] *)
Definition trim (s : jsstring) : jsstring :=
  rev (drop_spaces (rev (drop_spaces s))).

(** [str.split(/\r?\n/)]; [cur] is the piece being read. *)
Fixpoint split_lines (cur s : jsstring) : list jsstring :=
  match s with
  | [] => [cur]
  | c :: s' =>
      if c =? 10 then cur :: split_lines [] s'
      else
        match s' with
        | d :: s'' =>
            if (c =? 13) && (d =? 10) then cur :: split_lines [] s''
            else split_lines (cur ++ [c]) s'
        | [] => split_lines (cur ++ [c]) s'
        end
  end.

(** [lines.join("\n")] *)
Fixpoint join_lines (ls : list jsstring) : jsstring :=
  match ls with
  | [] => []
  | [l] => l
  | l :: rest => l ++ 10 :: join_lines rest
  end.

Fixpoint starts_with (p s : jsstring) : bool :=
  match p, s with
  | [], _ => true
  | a :: p', b :: s' => (a =? b) && starts_with p' s'
  | _ :: _, [] => false
  end.

(** [str.includes(p)] *)
Fixpoint includes (p s : jsstring) : bool :=
  starts_with p s ||
  match s with
  | [] => false
  | _ :: s' => includes p s'
  end.

(** [`${n}`] for an integer-valued number. *)
Definition show_Z (z : Z) : jsstring := js (NilZero.string_of_int (Z.to_int z)).

(** [`${v}`] for a value that is a number or [null]. *)
Definition show_num (v : option Z) : jsstring :=
  match v with Some z => show_Z z | None => js "null" end.

(** [`${v}`] for a value that is a string or [null]. *)
Definition show_str (v : option jsstring) : jsstring :=
  match v with Some s => s | None => js "null" end.

(** [a || b] where [a] is a string, [null] or [undefined]: the empty string
    is falsy too. *)
Definition or_else (a : option jsstring) (b : jsstring) : jsstring :=
  match a with
  | Some (c :: s) => c :: s
  | _ => b
  end.

(** ** Values *)

(** A thrown [Error]. *)
Inductive exn : Type := JsError (message : jsstring).

(** What a library call does: it returns or it throws (an awaited promise
    that rejects throws at the [await]). *)
Inductive outcome (A : Type) : Type :=
| Ok (a : A)
| Raise (e : exn).
Arguments Ok {A} a.
Arguments Raise {A} e.

(** The argument of [originalPositionFor]: [{ line: lineNumber, column }]. *)
Record Lookup : Type := { lk_line : Z; lk_column : option Z }.

(** An original position as [source-map] returns it; every field is [null]
    when the table has no mapping. *)
Record LookupResult : Type := {
  orig_source : option jsstring;
  orig_line : option Z;
  orig_column : option Z;
  orig_name : option jsstring
}.

(** A value stored in a numeric property of a consumer object. *)
Inductive slot : Type :=
| SUndefined
| SPosition (p : LookupResult).

(** A [SourceMapConsumer] object.  [originalPositionFor] is its method;
    [props] holds the numeric own properties the script writes on it
    ([consumer[0]], [consumer[index]]), which the method never reads. *)
Record Consumer : Type := {
  originalPositionFor : Lookup -> outcome LookupResult;
  props : gmap nat slot
}.

(** A frame as [stacktrace-parser] returns it (the fields the script reads). *)
Record StackFrame : Type := {
  methodName : option jsstring;
  lineNumber : option Z;
  column : option Z
}.

(** One item per console call site of the script. *)
Inductive out : Type :=
| OutHelp                          (* cli.showHelp() *)
| OutDebug (s : jsstring)          (* debug && console.log(`...`) *)
| OutLoadError (e : exn)           (* console.log / console.error in the loader's catch *)
| OutNoConsumers                   (* console.error("Unable to resolve source map consumers!", consumers) *)
| OutNoTrace (str : jsstring)      (* console.error('Unable to identify stack trace! ...', str) *)
| OutHeader (s : jsstring)         (* console.log(header) *)
| OutFrame (s : jsstring)          (* console.log(`    at ...`) *)
| OutFrameError (e : exn)          (* console.log(err, `    at FAILED_TO_PARSE_LINE`) *)
| OutError (e : exn).              (* console.error(err) in the outermost catch *)

(** Instrumentation: the calls to the outside world and the executions of
    the swap branch, in the order in which they happen. *)
Inductive event : Type :=
| EvReadFile (path : jsstring)
| EvClipboard
| EvJSONParse (text : jsstring)
| EvNewConsumer
| EvParseStack (text : jsstring)
| EvQuery (index : nat) (lookup : Lookup)
| EvSwap (index : nat).

(** The variables [stacktracify] closes over, the console and the
    instrumentation. *)
Record state : Type := {
  consumers : list Consumer;
  preferredConsumerOrder : bool;
  console : list out;
  trace : list event
}.

Definition initial : state :=
  {| consumers := []; preferredConsumerOrder := false; console := []; trace := [] |}.

Definition print (o : out) (st : state) : state :=
  {| consumers := consumers st; preferredConsumerOrder := preferredConsumerOrder st;
     console := console st ++ [o]; trace := trace st |}.

Definition record (e : event) (st : state) : state :=
  {| consumers := consumers st; preferredConsumerOrder := preferredConsumerOrder st;
     console := console st; trace := trace st ++ [e] |}.

Definition set_preferred (st : state) : state :=
  {| consumers := consumers st; preferredConsumerOrder := true;
     console := console st; trace := trace st |}.

Definition set_consumers (cs : list Consumer) (st : state) : state :=
  {| consumers := cs; preferredConsumerOrder := preferredConsumerOrder st;
     console := console st; trace := trace st |}.

(** ** The resolver *)

(** [lookupValue?.line] as a condition: a number other than 0. *)
Definition truthy_line (v : LookupResult) : bool :=
  match orig_line v with
  | Some z => negb (z =? 0)%Z
  | None => false
  end.

(** [consumer[i]] read on a consumer object. *)
Definition get_prop (c : Consumer) (i : nat) : slot :=
  default SUndefined (props c !! i).

(** [consumer[i] = v] *)
Definition set_prop (i : nat) (v : slot) (c : Consumer) : Consumer :=
  {| originalPositionFor := originalPositionFor c; props := <[i := v]> (props c) |}.

(** The [else] branch of the preference block:
    [const swap = consumer[0]; consumer[0] = lookupValue; consumer[index] = swap;]
    All three statements address the consumer object of the current
    iteration, which sits at [index] in the array [consumers]. *)
Definition swap_branch (index : nat) (consumer : Consumer) (lookupValue : LookupResult)
    (st : state) : state :=
  let swap := get_prop consumer 0 in
  let consumer1 := set_prop 0 (SPosition lookupValue) consumer in
  let consumer2 := set_prop index swap consumer1 in
  record (EvSwap index) (set_consumers (<[index := consumer2]> (consumers st)) st).

Definition debug_lookup_line : jsstring :=
  js "Identifying source map consumer for lookup [object Object]! [object Object] result!".

(** The [for (const consumer of consumers)] loop; [pending] are the
    elements not visited yet and [index] counts the visited ones. *)
Fixpoint scan (debug : bool) (lookup : Lookup) (pending : list Consumer) (index : nat)
    (st : state) : outcome (option LookupResult) * state :=
  match pending with
  | [] => (Ok None, st)
  | consumer :: rest =>
      let st1 := record (EvQuery index lookup) st in
      match originalPositionFor consumer lookup with
      | Raise e => (Raise e, st1)
      | Ok lookupValue =>
          let st2 := if debug then print (OutDebug debug_lookup_line) st1 else st1 in
          if truthy_line lookupValue then
            let st3 :=
              if preferredConsumerOrder st2 then st2
              else if Nat.eqb index 0 then set_preferred st2
              else set_preferred (swap_branch index consumer lookupValue st2) in
            (Ok (Some lookupValue), st3)
          else scan debug lookup rest (S index) st2
      end
  end.

(** [findPositionInAllSourceMaps(lookup)]; [None] is [undefined]. *)
Definition findPositionInAllSourceMaps (debug : bool) (lookup : Lookup) (st : state)
    : outcome (option LookupResult) * state :=
  match consumers st with
  | [] => (Ok None, st)
  | cs => scan debug lookup cs 0 st
  end.

(** ** The renderer: the callback of [stack.forEach] *)

Definition unknown : jsstring := js "[unknown]".

Definition bare_line (f : StackFrame) : jsstring :=
  js "    at " ++ or_else (methodName f) unknown.

Definition resolved_line (f : StackFrame) (pos : LookupResult) : jsstring :=
  js "    at " ++ or_else (orig_name pos) (or_else (methodName f) unknown)
  ++ js " (" ++ show_str (orig_source pos) ++ [colon] ++ show_num (orig_line pos)
  ++ [colon] ++ show_num (orig_column pos) ++ js ")".

(** [lineNumber == null || lineNumber < 1] *)
Definition no_line (f : StackFrame) : bool :=
  match lineNumber f with
  | None => true
  | Some n => (n <? 1)%Z
  end.

Definition renderFrame (debug : bool) (f : StackFrame) (st : state) : state :=
  match lineNumber f with
  | None => print (OutFrame (bare_line f)) st
  | Some n =>
      if (n <? 1)%Z then print (OutFrame (bare_line f)) st
      else
        match findPositionInAllSourceMaps debug {| lk_line := n; lk_column := column f |} st with
        | (Raise err, st') => print (OutFrameError err) st'
        | (Ok (Some pos), st') =>
            match orig_line pos with
            | Some _ => print (OutFrame (resolved_line f pos)) st'
            | None => st'
            end
        | (Ok None, st') => st'
        end
  end.

(** [stack.forEach(...)] *)
Fixpoint renderAll (debug : bool) (stack : list StackFrame) (st : state) : state :=
  match stack with
  | [] => st
  | f :: rest => renderAll debug rest (renderFrame debug f st)
  end.

(** ** The world outside the script *)

Record world : Type := {
  json : Type;                                              (* a parsed document *)
  readFile : jsstring -> outcome jsstring;                  (* await fs.readFile(path, "utf-8") *)
  JSON_parse : jsstring -> outcome json;                    (* JSON.parse(text) *)
  new_SourceMapConsumer : json -> outcome Consumer;         (* await new SourceMapConsumer(doc) *)
  clipboard_read : outcome jsstring;                        (* await clipboardy.read() *)
  stackTraceParser_parse : jsstring -> outcome (list StackFrame)  (* stackTraceParser.parse(text) *)
}.

(** The [mapPath] argument: absent, an array of paths or one path. *)
Inductive MapPath : Type :=
| MPUndefined
| MPArray (paths : list jsstring)
| MPString (path : jsstring).

(** [!mapPath] *)
Definition falsy_mapPath (mapPath : MapPath) : bool :=
  match mapPath with
  | MPUndefined => true
  | MPArray _ => false
  | MPString [] => true
  | MPString (_ :: _) => false
  end.

(** ** Control flow of the body of [stacktracify] *)

Inductive completion (A : Type) : Type :=
| Normal (a : A)
| Throw (e : exn)
| Return                (* [return;] out of [stacktracify] *)
| Exit (code : Z).      (* [process.exit(code)], reached through [cli.showHelp()] *)
Arguments Normal {A} a.
Arguments Throw {A} e.
Arguments Return {A}.
Arguments Exit {A} code.

Definition M (A : Type) : Type := state -> completion A * state.

Definition ret {A : Type} (a : A) : M A := fun st => (Normal a, st).

Definition bind {A B : Type} (m : M A) (f : A -> M B) : M B :=
  fun st =>
    match m st with
    | (Normal a, st') => f a st'
    | (Throw e, st') => (Throw e, st')
    | (Return, st') => (Return, st')
    | (Exit c, st') => (Exit c, st')
    end.

Declare Scope js_scope.
Delimit Scope js_scope with js.
Notation "x <- m ;; k" := (bind m (fun x => k))
  (at level 100, m at next level, right associativity) : js_scope.
Notation "m ;; k" := (bind m (fun _ => k))
  (at level 100, right associativity) : js_scope.
Local Open Scope js_scope.

Definition throw {A : Type} (e : exn) : M A := fun st => (Throw e, st).
Definition return_ {A : Type} : M A := fun st => (Return, st).
Definition exit {A : Type} (code : Z) : M A := fun st => (Exit code, st).
Definition get : M state := fun st => (Normal st, st).
Definition modify (f : state -> state) : M unit := fun st => (Normal tt, f st).
Definition say (o : out) : M unit := modify (print o).
Definition when (b : bool) (m : M unit) : M unit := if b then m else ret tt.

(** A library call: noted in the trace, then its outcome. *)
Definition call {A : Type} (e : event) (o : outcome A) : M A :=
  fun st =>
    match o with
    | Ok a => (Normal a, record e st)
    | Raise err => (Throw err, record e st)
    end.

(** [try { body } catch (err) { handler }]: only a throw enters the
    handler; [return] and a process exit pass through. *)
Definition try_catch {A : Type} (body : M A) (handler : exn -> M A) : M A :=
  fun st =>
    match body st with
    | (Throw e, st') => handler e st'
    | other => other
    end.

(** [consumers.push(smc)] *)
Definition push (smc : Consumer) : M unit :=
  modify (fun st => set_consumers (consumers st ++ [smc]) st).

(** [cli.showHelp()] of [meow]: prints the usage text and ends the process
    with code 2. *)
Definition showHelp {A : Type} : M A := (say OutHelp;; exit 2)%js.

(** How a call of the [async] function ends for its caller. *)
Inductive ending : Type :=
| Resolved              (* the promise resolves *)
| Rejected (e : exn)    (* the promise rejects *)
| Exited (code : Z).    (* the process ended inside the call *)

Definition finish (r : completion unit * state) : ending * state :=
  match r with
  | (Normal _, st) => (Resolved, st)
  | (Return, st) => (Resolved, st)
  | (Throw e, st) => (Rejected e, st)
  | (Exit c, st) => (Exited c, st)
  end.

(** [fs.readFile(undefined)] throws a [TypeError]. *)
Definition bad_path : exn := JsError (js "ERR_INVALID_ARG_TYPE").

(** The part after the trace text is known, the same in every revision:
    split, normalise, parse, print the header, render each frame. *)
Definition render (W : world) (debug : bool) (str : jsstring) : M unit :=
  let parts := split_lines [] (trim str) in
  let header := hd [] parts in
  let lines := List.map normalize (tl parts) in
  let text := join_lines lines in
  stack <- call (EvParseStack text) (stackTraceParser_parse W text);;
  match stack with
  | [] => throw (JsError (js "No stack found"))
  | _ =>
      when (negb (Nat.eqb (length header) 0)) (say (OutHeader header));;
      modify (renderAll debug stack)
  end.

(** [src/unnamed/part_001] (lines 51-164). *)
Module Part001.

(** One turn of [for (const m of mapPath)]. *)
Definition load_one (W : world) (debug : bool) (m : jsstring) : M unit :=
  when debug (say (OutDebug (js "Loading " ++ m ++ js " as source map consumer!")));;
  file <- call (EvReadFile m) (readFile W m);;
  match file with
  | [] => return_                                   (* if (!file) return; *)
  | _ =>
      mapContent <- call (EvJSONParse file) (JSON_parse W file);;
      smc <- call EvNewConsumer (new_SourceMapConsumer W mapContent);;
      when debug (say (OutDebug (js "Loaded source map consumer for " ++ m ++ js "!")));;
      push smc
  end.

Fixpoint load_array (W : world) (debug : bool) (ms : list jsstring) : M unit :=
  match ms with
  | [] => ret tt
  | m :: rest => load_one W debug m;; load_array W debug rest
  end.

(** The [else] branch: [mapPath] is not an array. *)
Definition load_single (W : world) (mapPath : jsstring) : M unit :=
  text <- call (EvReadFile mapPath) (readFile W mapPath);;
  mapContent <- call (EvJSONParse text) (JSON_parse W text);;
  smc <- call EvNewConsumer (new_SourceMapConsumer W mapContent);;
  push smc.

(** The inner [try { ... } catch (err) { console.log(...) }]. *)
Definition loadConsumers (W : world) (debug : bool) (mapPath : MapPath) : M unit :=
  try_catch
    match mapPath with
    | MPArray ms =>
        load_array W debug ms;;
        when debug (say (OutDebug (js "Loading source map consumers complete!")))
    | MPString p => load_single W p
    | MPUndefined => throw bad_path                   (* not reached: the process has ended *)
    end
    (fun err => say (OutLoadError err)).

Definition no_consumers : exn := JsError (js "Unable to resolve source map consumers!").

(** From [let str;] to the end of the outer [try] block. *)
Definition after_load (W : world) (file : option jsstring) (debug : bool) : M unit :=
  str <- match file with
         | Some f => call (EvReadFile f) (readFile W f)
         | None => call EvClipboard (clipboard_read W)
         end;;
  render W debug str.

Definition body (W : world) (mapPath : MapPath) (file : option jsstring) (debug : bool)
    : M unit :=
  try_catch
    (when (falsy_mapPath mapPath) showHelp;;
     loadConsumers W debug mapPath;;
     st <- get;;
     match consumers st with
     | [] => throw no_consumers
     | _ => after_load W file debug
     end)
    (fun err => say (OutError err)).

Definition stacktracify (W : world) (mapPath : MapPath) (file : option jsstring)
    (debug : bool) : ending * state :=
  finish (body W mapPath file debug initial).

End Part001.

(** [src/unnamed/part_000] (lines 51-184). *)
Module Part000.

Definition load_one (W : world) (debug : bool) (m : jsstring) : M unit :=
  when debug (say (OutDebug (js "Loading " ++ m ++ js " as source map consumer!")));;
  file <- call (EvReadFile m) (readFile W m);;
  mapContent <- call (EvJSONParse file) (JSON_parse W file);;
  smc <- call EvNewConsumer (new_SourceMapConsumer W mapContent);;
  when debug (say (OutDebug (js "Loaded source map consumer for " ++ m ++ js "!")));;
  push smc.

Fixpoint load_array (W : world) (debug : bool) (ms : list jsstring) : M unit :=
  match ms with
  | [] => ret tt
  | m :: rest => load_one W debug m;; load_array W debug rest
  end.

(** The [else] branch.  [promises] is declared nowhere, so in strict mode
    [promises.push(Promise.resolve)] throws before [consumers.push(smc)]. *)
Definition load_single (W : world) (mapPath : jsstring) : M unit :=
  text <- call (EvReadFile mapPath) (readFile W mapPath);;
  mapContent <- call (EvJSONParse text) (JSON_parse W text);;
  smc <- call EvNewConsumer (new_SourceMapConsumer W mapContent);;
  (throw (JsError (js "promises is not defined")) : M unit);;
  push smc.

Definition loadConsumers (W : world) (debug : bool) (mapPath : MapPath) : M unit :=
  try_catch
    match mapPath with
    | MPArray ms =>
        load_array W debug ms;;
        st <- get;;
        when debug (say (OutDebug (js "Loaded " ++ show_Z (Z.of_nat (length (consumers st)))
                                   ++ js " source map consumers!")))
    | MPString p => load_single W p
    | MPUndefined => throw bad_path                   (* not reached: the process has ended *)
    end
    (fun err => say (OutLoadError err)).

(** From [let str;] to the end of the outer [try] block. *)
Definition after_load (W : world) (file : option jsstring) (debug : bool) : M unit :=
  str <- match file with
         | Some f =>
             when debug (say (OutDebug (js "Reading stack trace as file from " ++ f ++ js "!")));;
             call (EvReadFile f) (readFile W f)
         | None =>
             when debug (say (OutDebug (js "Reading stack trace from clipboard!")));;
             call EvClipboard (clipboard_read W)
         end;;
  (* naive check for stack trace in clipboard *)
  if Nat.eqb (length str) 0 || negb (includes (js "at") str)
  then say (OutNoTrace str);; return_
  else render W debug str.

Definition body (W : world) (mapPath : MapPath) (file : option jsstring) (debug : bool)
    : M unit :=
  try_catch
    (when (falsy_mapPath mapPath) showHelp;;
     loadConsumers W debug mapPath;;
     st <- get;;
     match consumers st with
     | [] => say OutNoConsumers;; return_
     | _ => after_load W file debug
     end)
    (fun err => say (OutError err)).

Definition stacktracify (W : world) (mapPath : MapPath) (file : option jsstring)
    (debug : bool) : ending * state :=
  finish (body W mapPath file debug initial).

End Part000.

(** ** The vocabulary of the specification *)

(** What a pattern matches, read declaratively: [matches r a cs] says that
    [r] matches exactly the string [a] with captures [cs]. *)
Inductive matches : regex -> jsstring -> captures -> Prop :=
| matches_lit c : matches (Lit c) [c] []
| matches_plus cls a :
    a <> [] -> forallb cls a = true -> matches (Plus cls) a []
| matches_cat r1 r2 a1 a2 cs1 cs2 :
    matches r1 a1 cs1 -> matches r2 a2 cs2 ->
    matches (Cat r1 r2) (a1 ++ a2) (cs1 ++ cs2)
| matches_grp r a cs :
    matches r a cs -> matches (Grp r) a (cs ++ [a]).

(** [<file>:<line>:<col>] as text. *)
Definition location (file ln col : jsstring) : jsstring :=
  file ++ [colon] ++ ln ++ [colon] ++ col.

(** [<whitespace><file>:<line>:<col><whitespace><method>], a whole line:
    the blanks are [\s+], the file and the method [[^\s]+], the line and the
    column [\d+]. *)
Definition bare_frame_line (l ws file ln col ws' method : jsstring) : Prop :=
  l = ws ++ location file ln col ++ ws' ++ method
  /\ ws <> [] /\ forallb is_space ws = true
  /\ file <> [] /\ forallb non_space file = true
  /\ ln <> [] /\ forallb is_digit ln = true
  /\ col <> [] /\ forallb is_digit col = true
  /\ ws' <> [] /\ forallb is_space ws' = true
  /\ method <> [] /\ forallb non_space method = true.

(** A string is empty or begins with a character outside the class. *)
Definition stops (cls : N -> bool) (x : jsstring) : Prop :=
  match x with
  | [] => True
  | c :: _ => cls c = false
  end.

(** [<whitespace>at <method> (<file>:<line>:<col>)] *)
Definition canonical (ws method loc : jsstring) : jsstring :=
  ws ++ js "at " ++ method ++ js " (" ++ loc ++ js ")".

(** The tables of a Table Set, in iteration order. *)
Definition lookups (cs : list Consumer) : list (Lookup -> outcome LookupResult) :=
  List.map originalPositionFor cs.

(** The stateless resolver of the specification: the result of the first
    table whose lookup yields a defined line, [undefined] if there is none.
    A table that throws ends the search with its error. *)
Fixpoint first_match (tables : list (Lookup -> outcome LookupResult)) (lookup : Lookup)
    : outcome (option LookupResult) :=
  match tables with
  | [] => Ok None
  | t :: rest =>
      match t lookup with
      | Raise e => Raise e
      | Ok v =>
          match orig_line v with
          | Some _ => Ok (Some v)
          | None => first_match rest lookup
          end
      end
  end.

(** How many tables the stateless resolver asks. *)
Fixpoint probes (tables : list (Lookup -> outcome LookupResult)) (lookup : Lookup) : nat :=
  match tables with
  | [] => 0
  | t :: rest =>
      match t lookup with
      | Raise _ => 1
      | Ok v =>
          match orig_line v with
          | Some _ => 1
          | None => S (probes rest lookup)
          end
      end
  end.

(** The indices of the tables queried, in order. *)
Fixpoint queries_of (t : list event) : list nat :=
  match t with
  | [] => []
  | EvQuery i _ :: t' => i :: queries_of t'
  | _ :: t' => queries_of t'
  end.

(** The number of reorder events. *)
Fixpoint swaps_of (t : list event) : nat :=
  match t with
  | [] => 0
  | EvSwap _ :: t' => S (swaps_of t')
  | _ :: t' => swaps_of t'
  end.

Definition is_parse_event (e : event) : bool :=
  match e with EvParseStack _ => true | _ => false end.

(** A header line or a frame line of the rendered trace. *)
Definition is_trace_line (o : out) : bool :=
  match o with
  | OutHeader _ | OutFrame _ | OutFrameError _ => true
  | _ => false
  end.

(** The source-map contract on original lines: they count from 1, so a
    table never reports line 0. *)
Definition one_based (cs : list Consumer) : Prop :=
  Forall (fun c => forall lookup v,
            originalPositionFor c lookup = Ok v -> orig_line v <> Some 0%Z) cs.

(** The table reports "not found" for [lookup]. *)
Definition not_found_in (lookup : Lookup) (c : Consumer) : Prop :=
  exists v, originalPositionFor c lookup = Ok v /\ orig_line v = None.

(** The document at path [m] is well formed: it reads back non-empty,
    parses, and yields the table [c]. *)
Definition loads (W : world) (m : jsstring) (c : Consumer) : Prop :=
  exists text doc,
    readFile W m = Ok text /\ text <> []
    /\ JSON_parse W text = Ok doc /\ new_SourceMapConsumer W doc = Ok c.

(** The error, if any, that loading the document at path [m] throws: the
    first of [fs.readFile], [JSON.parse] and [new SourceMapConsumer] to
    fail, whatever the text is. *)
Definition load_error (W : world) (m : jsstring) : option exn :=
  match readFile W m with
  | Raise e => Some e
  | Ok text =>
      match JSON_parse W text with
      | Raise e => Some e
      | Ok doc =>
          match new_SourceMapConsumer W doc with
          | Raise e => Some e
          | Ok _ => None
          end
      end
  end.

(** The states a rendering pass goes through: before the first frame and
    after each one. *)
Fixpoint passes (debug : bool) (stack : list StackFrame) (st : state) : list state :=
  match stack with
  | [] => [st]
  | f :: rest => st :: passes debug rest (renderFrame debug f st)
  end.

(** Whether the frame resolves in state [st]. *)
Definition resolves (debug : bool) (f : StackFrame) (st : state) : bool :=
  match lineNumber f with
  | None => false
  | Some n =>
      if (n <? 1)%Z then false
      else
        match findPositionInAllSourceMaps debug {| lk_line := n; lk_column := column f |} st with
        | (Ok (Some _), _) => true
        | _ => false
        end
  end.

(** ** Invariants of the run *)

(** [P] survives the computation, however it completes. *)
Definition preserves {A : Type} (P : state -> Prop) (m : M A) : Prop :=
  forall st, P st -> P (snd (m st)).

(** The ways a computation may complete: normally or by a throw, and, when
    allowed, by [return] or by ending the process. *)
Definition abrupt_ok {A : Type} (return_ok exit_ok : bool) (c : completion A) : bool :=
  match c with
  | Normal _ | Throw _ => true
  | Return => return_ok
  | Exit _ => exit_ok
  end.

Definition ends {A : Type} (return_ok exit_ok : bool) (m : M A) : Prop :=
  forall st, abrupt_ok return_ok exit_ok (fst (m st)) = true.

(** The array of consumers holds [n] tables. *)
Definition holds (n : nat) (st : state) : Prop := length (consumers st) = n.

(** At most one reorder event, and none while the flag is still false. *)
Definition settled_inv (st : state) : Prop :=
  (swaps_of (trace st) <= if preferredConsumerOrder st then 1 else 0)%nat.

(** Nothing of the rendered trace is on the console, and the trace text
    has been neither read nor parsed. *)
Definition nothing_rendered (st : state) : Prop :=
  List.filter is_trace_line (console st) = []
  /\ List.filter is_parse_event (trace st) = [].

(** [lookupValue] is a successful resolution. *)
Definition is_hit (r : outcome (option LookupResult)) : bool :=
  match r with
  | Ok (Some _) => true
  | _ => false
  end.

(** What one call of the resolver does to the flag and to the count of
    reorder events. *)
Definition flag_step (st st' : state) (hit : bool) : Prop :=
  preferredConsumerOrder st' = preferredConsumerOrder st || hit
  /\ (preferredConsumerOrder st = true ->
      swaps_of (trace st') = swaps_of (trace st)
      /\ consumers st' = consumers st)
  /\ (swaps_of (trace st') = swaps_of (trace st)
      \/ preferredConsumerOrder st = false
         /\ preferredConsumerOrder st' = true
         /\ swaps_of (trace st') = S (swaps_of (trace st))).

(** ** Sample data *)

Definition not_found : LookupResult :=
  {| orig_source := None; orig_line := None; orig_column := None; orig_name := None |}.

Definition foo_ts : LookupResult :=
  {| orig_source := Some (js "src/foo.ts"); orig_line := Some 5%Z;
     orig_column := Some 2%Z; orig_name := Some (js "foo") |}.

Definition line_zero : LookupResult :=
  {| orig_source := Some (js "src/foo.ts"); orig_line := Some 0%Z;
     orig_column := Some 2%Z; orig_name := None |}.

Definition table_miss : Lookup -> outcome LookupResult := fun _ => Ok not_found.
Definition table_foo : Lookup -> outcome LookupResult := fun _ => Ok foo_ts.

(** A freshly built consumer: no numeric property yet. *)
Definition consumer_of (t : Lookup -> outcome LookupResult) : Consumer :=
  {| originalPositionFor := t; props := ∅ |}.

Definition with_tables (ts : list (Lookup -> outcome LookupResult)) : state :=
  set_consumers (List.map consumer_of ts) initial.

Definition frame_foo : StackFrame :=
  {| methodName := Some (js "foo"); lineNumber := Some 1%Z; column := Some 10%Z |}.

Definition frame_native : StackFrame :=
  {| methodName := None; lineNumber := None; column := None |}.

Definition lookup_1_10 : Lookup := {| lk_line := 1; lk_column := Some 10%Z |}.

Fixpoint str_eqb (a b : jsstring) : bool :=
  match a, b with
  | [], [] => true
  | x :: a', y :: b' => (x =? y) && str_eqb a' b'
  | _, _ => false
  end.

Definition boom_trace : jsstring :=
  js "Error: boom" ++ [10] ++ js "    at foo (bundle.js:1:10)".

(** A small file system: [good.map] is a well-formed document, [bad.map]
    is malformed JSON, [empty.map] is an empty file, [trace.txt] holds a
    trace; nothing else exists. *)
Definition sample_world : world :=
  {| json := jsstring;
     readFile := fun p =>
       if str_eqb p (js "good.map") then Ok (js "{}")
       else if str_eqb p (js "bad.map") then Ok (js "{")
       else if str_eqb p (js "empty.map") then Ok []
       else if str_eqb p (js "trace.txt") then Ok boom_trace
       else Raise (JsError (js "ENOENT"));
     JSON_parse := fun t =>
       if str_eqb t (js "{}") then Ok t
       else Raise (JsError (js "Unexpected end of JSON input"));
     new_SourceMapConsumer := fun _ => Ok (consumer_of table_foo);
     clipboard_read := Ok boom_trace;
     stackTraceParser_parse := fun _ => Ok [frame_foo] |}.

(** ** The run as a function of its inputs *)

(** The resolver with the state erased: the result of the first table whose
    line passes the truthiness test of the loop. *)
Fixpoint resolve_pure (tables : list (Lookup -> outcome LookupResult)) (lookup : Lookup)
    : outcome (option LookupResult) :=
  match tables with
  | [] => Ok None
  | t :: rest =>
      match t lookup with
      | Raise e => Raise e
      | Ok v => if truthy_line v then Ok (Some v) else resolve_pure rest lookup
      end
  end.

(** The number of tables the loop asks, and of those that answer. *)
Fixpoint asked (tables : list (Lookup -> outcome LookupResult)) (lookup : Lookup) : nat :=
  match tables with
  | [] => 0
  | t :: rest =>
      match t lookup with
      | Raise _ => 1
      | Ok v => if truthy_line v then 1 else S (asked rest lookup)
      end
  end.

Fixpoint answered (tables : list (Lookup -> outcome LookupResult)) (lookup : Lookup) : nat :=
  match tables with
  | [] => 0
  | t :: rest =>
      match t lookup with
      | Raise _ => 0
      | Ok v => if truthy_line v then 1 else S (answered rest lookup)
      end
  end.

(** Everything one frame puts on the console, given the tables in order. *)
Definition frame_output (debug : bool) (tables : list (Lookup -> outcome LookupResult))
    (f : StackFrame) : list out :=
  match lineNumber f with
  | None => [OutFrame (bare_line f)]
  | Some n =>
      if (n <? 1)%Z then [OutFrame (bare_line f)]
      else
        let lookup := {| lk_line := n; lk_column := column f |} in
        (if debug then repeat (OutDebug debug_lookup_line) (answered tables lookup) else [])
        ++ match resolve_pure tables lookup with
           | Raise err => [OutFrameError err]
           | Ok (Some pos) => [OutFrame (resolved_line f pos)]
           | Ok None => []
           end
  end.

(** The text with every CR LF pair turned into LF. *)
Fixpoint lf_only (s : jsstring) : jsstring :=
  match s with
  | [] => []
  | c :: s' =>
      match s' with
      | d :: _ => if (c =? 13) && (d =? 10) then lf_only s' else c :: lf_only s'
      | [] => [c]
      end
  end.

(** Where the trace text comes from. *)
Definition trace_source (W : world) (file : option jsstring) : outcome jsstring :=
  match file with
  | Some f => readFile W f
  | None => clipboard_read W
  end.

(** The header and the text handed to the parser. *)
Definition header_of (str : jsstring) : jsstring := hd [] (split_lines [] (trim str)).

Definition parser_input (str : jsstring) : jsstring :=
  join_lines (List.map normalize (tl (split_lines [] (trim str)))).

(** [if (header) console.log(header)] *)
Definition header_line (str : jsstring) : list out :=
  match header_of str with
  | [] => []
  | h => [OutHeader h]
  end.

(** What [part_000] logs before it reads the trace text. *)
Definition reading_log (debug : bool) (file : option jsstring) : list out :=
  if debug
  then match file with
       | Some f => [OutDebug (js "Reading stack trace as file from " ++ f ++ js "!")]
       | None => [OutDebug (js "Reading stack trace from clipboard!")]
       end
  else [].

(** The error, if any, that stops a run between loading and rendering:
    the trace text cannot be read, the parser throws, or it finds no
    frame. *)
Definition fatal_after_load (W : world) (file : option jsstring) : option exn :=
  match trace_source W file with
  | Raise e => Some e
  | Ok str =>
      match stackTraceParser_parse W (parser_input str) with
      | Raise e => Some e
      | Ok [] => Some (JsError (js "No stack found"))
      | Ok (_ :: _) => None
      end
  end.

(** What the loading loop logs for one well-formed document. *)
Definition loading_log (debug : bool) (m : jsstring) : list out :=
  if debug
  then [OutDebug (js "Loading " ++ m ++ js " as source map consumer!");
        OutDebug (js "Loaded source map consumer for " ++ m ++ js "!")]
  else [].

Definition is_debug_out (o : out) : bool :=
  match o with OutDebug _ => true | _ => false end.

(** No header line, frame line or failure line is on the console. *)
Definition no_trace_lines (st : state) : Prop :=
  List.filter is_trace_line (console st) = [].

(** A world like [sample_world] whose parser finds nothing. *)
Definition frameless_world : world :=
  {| json := json sample_world;
     readFile := readFile sample_world;
     JSON_parse := JSON_parse sample_world;
     new_SourceMapConsumer := new_SourceMapConsumer sample_world;
     clipboard_read := clipboard_read sample_world;
     stackTraceParser_parse := fun _ => Ok [] |}.

(** A world like [sample_world] whose parser finds the frame only in the
    text of [trace.txt]. *)
Definition choosy_world : world :=
  {| json := json sample_world;
     readFile := readFile sample_world;
     JSON_parse := JSON_parse sample_world;
     new_SourceMapConsumer := new_SourceMapConsumer sample_world;
     clipboard_read := clipboard_read sample_world;
     stackTraceParser_parse := fun text =>
       if str_eqb text (parser_input boom_trace) then Ok [frame_foo] else Ok [] |}.

(** ** Errors and their reports *)









(** * Proofs *)

(** ** The matcher against the declarative reading *)

Lemma consumed_app (a b : jsstring) : consumed (a ++ b) b = a.
Proof.
  unfold consumed. rewrite length_app.
  replace (length a + length b - length b)%nat with (length a) by lia.
  apply take_app_length.
Qed.

Lemma plus_greedy_sound {R : Type} cls s (k : jsstring -> option R) r :
  plus_greedy cls s k = Some r ->
  exists a b, s = a ++ b /\ a <> [] /\ forallb cls a = true /\ k b = Some r.
Proof.
  induction s as [|c s IH]; simpl; [discriminate|].
  destruct (cls c) eqn:Hc; [|discriminate].
  destruct (plus_greedy cls s k) as [r'|] eqn:Hrec.
  - intros [= <-]. destruct (IH eq_refl) as (a & b & -> & Ha & Hall & Hk).
    exists (c :: a), b. simpl. rewrite Hc, Hall. auto.
  - intros Hk. exists [c], s. simpl. rewrite Hc. auto.
Qed.

Lemma plus_greedy_complete {R : Type} cls a b (k : jsstring -> option R) r :
  a <> [] -> forallb cls a = true -> k b = Some r ->
  exists r', plus_greedy cls (a ++ b) k = Some r'.
Proof.
  induction a as [|c a IH]; [congruence|].
  intros _ Hall Hk. simpl in Hall. apply andb_prop in Hall as [Hc Hall].
  simpl. rewrite Hc. destruct a as [|d a].
  - simpl. destruct (plus_greedy cls b k); eauto.
  - destruct IH as [r' ->]; [discriminate|assumption|assumption|]. eauto.
Qed.

Lemma rmatch_sound r : forall s caps k out,
  rmatch r s caps k = Some out ->
  exists a b cs, s = a ++ b /\ matches r a cs /\ k b (caps ++ cs) = Some out.
Proof.
  induction r as [c|cls|r1 IH1 r2 IH2|r IH]; intros s caps k out; simpl.
  - destruct s as [|x s]; [discriminate|].
    destruct (N.eqb_spec x c) as [->|]; [|discriminate].
    intros Hk. exists [c], s, []. rewrite app_nil_r. repeat split; [constructor|assumption].
  - intros H. apply plus_greedy_sound in H as (a & b & -> & Ha & Hall & Hk).
    exists a, b, []. rewrite app_nil_r. repeat split; [constructor|]; assumption.
  - intros H. apply IH1 in H as (a1 & b1 & cs1 & -> & M1 & H).
    apply IH2 in H as (a2 & b2 & cs2 & -> & M2 & H).
    exists (a1 ++ a2), b2, (cs1 ++ cs2).
    rewrite <- !app_assoc in *. repeat split; [constructor|]; assumption.
  - intros H. apply IH in H as (a & b & cs & -> & M1 & H).
    rewrite consumed_app in H.
    exists a, b, (cs ++ [a]). rewrite app_assoc. repeat split; [constructor|]; assumption.
Qed.

Lemma rmatch_complete r a cs :
  matches r a cs ->
  forall b caps k out, k b (caps ++ cs) = Some out ->
  exists out', rmatch r (a ++ b) caps k = Some out'.
Proof.
  induction 1 as [c|cls a Ha Hall|r1 r2 a1 a2 cs1 cs2 _ IH1 _ IH2|r a cs _ IH];
    intros b caps k out Hk; simpl.
  - rewrite N.eqb_refl. rewrite app_nil_r in Hk. eauto.
  - rewrite app_nil_r in Hk. eapply plus_greedy_complete; eauto.
  - rewrite app_assoc in Hk.
    destruct (IH2 b (caps ++ cs1) k out Hk) as [out2 H2].
    rewrite <- app_assoc. eapply IH1. exact H2.
  - eapply IH. rewrite consumed_app, <- app_assoc. exact Hk.
Qed.

Lemma exec_sound r line cs : exec r line = Some cs -> matches r line cs.
Proof.
  unfold exec. intros H. apply rmatch_sound in H as (a & b & cs' & -> & M1 & H).
  destruct b; [|discriminate]. injection H as <-. rewrite app_nil_r. exact M1.
Qed.

Lemma exec_complete r line cs :
  matches r line cs -> exists cs', exec r line = Some cs'.
Proof.
  intros M1. unfold exec.
  destruct (rmatch_complete r line cs M1 [] []
              (fun rest caps => match rest with [] => Some caps | _ => None end) cs eq_refl)
    as [out H].
  rewrite app_nil_r in H. eauto.
Qed.

(** ** The normaliser's pattern *)

Lemma digit_non_space c : is_digit c = true -> non_space c = true.
Proof.
  unfold is_digit, non_space, is_space. intros H.
  apply andb_prop in H as [H1 H2].
  apply N.leb_le in H1. apply N.leb_le in H2.
  repeat match goal with
         | |- context [N.leb ?a ?b] => destruct (N.leb_spec a b); try lia
         | |- context [N.eqb ?a ?b] => destruct (N.eqb_spec a b); try lia
         end; reflexivity.
Qed.

Lemma digits_non_space a : forallb is_digit a = true -> forallb non_space a = true.
Proof.
  induction a as [|c a IH]; simpl; [reflexivity|].
  intros H. apply andb_prop in H as [Hc Ha].
  rewrite (digit_non_space c Hc). auto.
Qed.

Lemma location_non_space file ln col :
  forallb non_space file = true -> forallb is_digit ln = true ->
  forallb is_digit col = true ->
  forallb non_space (location file ln col) = true.
Proof.
  intros Hf Hl Hc. unfold location.
  rewrite !forallb_app, Hf, (digits_non_space ln Hl), (digits_non_space col Hc).
  reflexivity.
Qed.

Lemma span_unique cls : forall a a' x x',
  forallb cls a = true -> forallb cls a' = true ->
  stops cls x -> stops cls x' ->
  a ++ x = a' ++ x' -> a = a' /\ x = x'.
Proof.
  induction a as [|c a IH]; intros [|c' a'] x x' Ha Ha' Hx Hx' E; simpl in *.
  - auto.
  - subst x. simpl in Hx. apply andb_prop in Ha' as [Hc _]. congruence.
  - subst x'. simpl in Hx'. apply andb_prop in Ha as [Hc _]. congruence.
  - injection E as -> E.
    apply andb_prop in Ha as [_ Ha]. apply andb_prop in Ha' as [_ Ha'].
    destruct (IH a' x x' Ha Ha' Hx Hx' E) as [-> ->]. auto.
Qed.

Lemma stops_space a b :
  a <> [] -> forallb non_space a = true -> stops is_space (a ++ b).
Proof.
  destruct a as [|c a]; [congruence|]. simpl. intros _ H.
  apply andb_prop in H as [Hc _]. unfold non_space in Hc.
  destruct (is_space c); [discriminate|reflexivity].
Qed.

Lemma stops_non_space a b :
  a <> [] -> forallb is_space a = true -> stops non_space (a ++ b).
Proof.
  destruct a as [|c a]; [congruence|]. simpl. intros _ H.
  apply andb_prop in H as [Hc _]. unfold non_space. rewrite Hc. reflexivity.
Qed.

Lemma location_nonempty file ln col : location file ln col <> [].
Proof. unfold location. destruct file; discriminate. Qed.

Lemma bare_frame_line_unique l ws file ln col ws' method ws2 file2 ln2 col2 ws2' method2 :
  bare_frame_line l ws file ln col ws' method ->
  bare_frame_line l ws2 file2 ln2 col2 ws2' method2 ->
  ws = ws2 /\ location file ln col = location file2 ln2 col2 /\ method = method2.
Proof.
  intros (E & Hws0 & Hws & Hf0 & Hf & Hl0 & Hl & Hc0 & Hc & Hw0 & Hw & Hm0 & Hm)
         (E2 & Hws0' & Hws' & Hf0' & Hf' & Hl0' & Hl' & Hc0' & Hc' & Hw0' & Hw' & Hm0' & Hm').
  pose proof (location_non_space file ln col Hf Hl Hc) as Hloc.
  pose proof (location_non_space file2 ln2 col2 Hf' Hl' Hc') as Hloc'.
  rewrite E in E2.
  apply (span_unique is_space) in E2 as [-> E2]; try assumption;
    try (apply stops_space; [apply location_nonempty|assumption]).
  apply (span_unique non_space) in E2 as [E3 E2]; try assumption;
    try (apply stops_non_space; assumption).
  apply (span_unique is_space) in E2 as [_ E2]; try assumption;
    try (rewrite <- (app_nil_r method); apply stops_space; assumption);
    try (rewrite <- (app_nil_r method2); apply stops_space; assumption).
  auto.
Qed.

Lemma frame_re_matches l ws file ln col ws' method :
  bare_frame_line l ws file ln col ws' method ->
  matches frame_re l [ws; location file ln col; method].
Proof.
  intros (E & Hws0 & Hws & Hf0 & Hf & Hl0 & Hl & Hc0 & Hc & Hw0 & Hw & Hm0 & Hm).
  unfold frame_re.
  pose proof (matches_plus is_space ws Hws0 Hws) as Mws.
  pose proof (matches_plus non_space file Hf0 Hf) as Mfile.
  pose proof (matches_plus is_digit ln Hl0 Hl) as Mln.
  pose proof (matches_plus is_digit col Hc0 Hc) as Mcol.
  pose proof (matches_plus is_space ws' Hw0 Hw) as Mws'.
  pose proof (matches_plus non_space method Hm0 Hm) as Mmethod.
  pose proof (matches_cat _ _ _ _ _ _ (matches_lit colon) Mcol) as M1.
  pose proof (matches_cat _ _ _ _ _ _ Mln M1) as M2.
  pose proof (matches_cat _ _ _ _ _ _ (matches_lit colon) M2) as M3.
  pose proof (matches_cat _ _ _ _ _ _ Mfile M3) as M4.
  pose proof (matches_cat _ _ _ _ _ _ Mws' (matches_grp _ _ _ Mmethod)) as M5.
  pose proof (matches_cat _ _ _ _ _ _ (matches_grp _ _ _ M4) M5) as M6.
  pose proof (matches_cat _ _ _ _ _ _ (matches_grp _ _ _ Mws) M6) as M7.
  rewrite E. exact M7.
Qed.

Lemma matches_frame_re l cs :
  matches frame_re l cs ->
  exists ws file ln col ws' method,
    bare_frame_line l ws file ln col ws' method
    /\ cs = [ws; location file ln col; method].
Proof.
  unfold frame_re. intros M0.
  repeat match goal with
         | H : matches (Cat _ _) _ _ |- _ => inversion H; clear H; subst
         | H : matches (Grp _) _ _ |- _ => inversion H; clear H; subst
         | H : matches (Plus _) _ _ |- _ => inversion H; clear H; subst
         | H : matches (Lit _) _ _ |- _ => inversion H; clear H; subst
         end.
  match goal with
  | |- context [?ws ++ (?f ++ [colon] ++ ?ln ++ [colon] ++ ?col) ++ ?ws' ++ ?m] =>
      exists ws, f, ln, col, ws', m
  end.
  unfold bare_frame_line, location. simpl. auto 20.
Qed.

Lemma exec_frame_re_match l ws file ln col ws' method :
  bare_frame_line l ws file ln col ws' method ->
  exec frame_re l = Some [ws; location file ln col; method].
Proof.
  intros B.
  destruct (exec_complete _ _ _ (frame_re_matches _ _ _ _ _ _ _ B)) as [cs E].
  rewrite E. f_equal.
  apply exec_sound, matches_frame_re in E
    as (ws2 & file2 & ln2 & col2 & ws2' & method2 & B2 & ->).
  destruct (bare_frame_line_unique _ _ _ _ _ _ _ _ _ _ _ _ _ B2 B) as (-> & -> & ->).
  reflexivity.
Qed.

Lemma exec_frame_re_none l :
  ~ (exists ws file ln col ws' method, bare_frame_line l ws file ln col ws' method) ->
  exec frame_re l = None.
Proof.
  intros N0. destruct (exec frame_re l) as [cs|] eqn:E; [|reflexivity].
  apply exec_sound, matches_frame_re in E
    as (ws & file & ln & col & ws' & method & B & _).
  exfalso. apply N0. eauto 10.
Qed.

Lemma canonical_no_match ws method loc :
  forallb is_space ws = true -> exec frame_re (canonical ws method loc) = None.
Proof.
  intros Hws. apply exec_frame_re_none.
  intros (ws1 & file & ln & col & ws1' & m1 & B).
  destruct B as (E & Hws0 & Hws1 & Hf0 & Hf & Hl0 & Hl & Hc0 & Hc & Hw0 & Hw & Hm0 & Hm).
  pose proof (location_non_space file ln col Hf Hl Hc) as Hloc.
  unfold canonical in E. change (js "at ") with [97; 116; 32] in E.
  apply (span_unique is_space) in E as [_ E]; try assumption;
    [|reflexivity|apply stops_space; [apply location_nonempty|assumption]].
  change ([97; 116; 32] ++ method ++ js " (" ++ loc ++ js ")")
    with ([97; 116] ++ 32 :: method ++ js " (" ++ loc ++ js ")") in E.
  apply (span_unique non_space) in E as [E _];
    [|reflexivity|assumption|reflexivity|apply stops_non_space; assumption].
  unfold location, colon in E.
  destruct file as [|a [|b [|c file]]]; simpl in E; congruence.
Qed.

(** Normalising twice is normalising once. *)
Lemma normalize_idempotent l : normalize (normalize l) = normalize l.
Proof.
  unfold normalize at 2 3.
  destruct (exec frame_re l) as [cs|] eqn:E.
  - pose proof E as E'.
    apply exec_sound, matches_frame_re in E'
      as (ws & file & ln & col & ws' & method & B & ->).
    fold (canonical ws method (location file ln col)).
    unfold normalize. rewrite canonical_no_match; [reflexivity|].
    destruct B as (_ & _ & Hws & _). exact Hws.
  - unfold normalize. rewrite E. reflexivity.
Qed.

(** C7: a line of the shape [<whitespace><file>:<line>:<col><whitespace><method>]
    is rewritten to [<whitespace>at <method> (<file>:<line>:<col>)], keeping
    its leading whitespace; every other line comes back unchanged; and
    [    index-abc123.js:2:5 bar] becomes [    at bar (index-abc123.js:2:5)]. *)
Theorem C7_normalize_rewrites_bare_frame_lines : forall l : jsstring,
  (forall ws file ln col ws' method,
      bare_frame_line l ws file ln col ws' method ->
      normalize l = canonical ws method (location file ln col))
  /\ (~ (exists ws file ln col ws' method, bare_frame_line l ws file ln col ws' method) ->
      normalize l = l)
  /\ normalize (js "    index-abc123.js:2:5 bar") = js "    at bar (index-abc123.js:2:5)".
Proof.
  intros l. split; [|split].
  - intros ws file ln col ws' method B. unfold normalize.
    rewrite (exec_frame_re_match _ _ _ _ _ _ _ B). reflexivity.
  - intros N0. unfold normalize. rewrite (exec_frame_re_none l N0). reflexivity.
  - vm_compute. reflexivity.
Qed.

(** C9: a line already in the canonical form
    [<whitespace>at <method> (<file>:<line>:<col>)] is left as it is by the
    normaliser, whatever the method and the location are. *)
Theorem C9_normalize_fixes_canonical_lines : forall ws method loc : jsstring,
  forallb is_space ws = true ->
  normalize (canonical ws method loc) = canonical ws method loc.
Proof.
  intros ws method loc Hws. unfold normalize.
  rewrite (canonical_no_match ws method loc Hws). reflexivity.
Qed.

Lemma C9_witness :
  normalize (canonical (js "    ") (js "bar") (js "index-abc123.js:2:5"))
  = js "    at bar (index-abc123.js:2:5)".
Proof.
  exact (C9_normalize_fixes_canonical_lines
           (js "    ") (js "bar") (js "index-abc123.js:2:5") eq_refl).
Defined.

Lemma C7_witness :
  bare_frame_line (js "    index-abc123.js:2:5 bar")
    (js "    ") (js "index-abc123.js") (js "2") (js "5") (js " ") (js "bar")
  /\ normalize (js "    index-abc123.js:2:5 bar") = js "    at bar (index-abc123.js:2:5)".
Proof.
  assert (B : bare_frame_line (js "    index-abc123.js:2:5 bar")
                (js "    ") (js "index-abc123.js") (js "2") (js "5") (js " ") (js "bar")).
  { unfold bare_frame_line. repeat split; try discriminate; reflexivity. }
  split; [exact B|].
  exact (proj1 (C7_normalize_rewrites_bare_frame_lines (js "    index-abc123.js:2:5 bar"))
               _ _ _ _ _ _ B).
Defined.

(** ** The resolver *)

Lemma queries_of_app t1 t2 : queries_of (t1 ++ t2) = queries_of t1 ++ queries_of t2.
Proof.
  induction t1 as [|e t1 IH]; [reflexivity|].
  destruct e; simpl; rewrite IH; reflexivity.
Qed.

Lemma swaps_of_app t1 t2 : swaps_of (t1 ++ t2) = (swaps_of t1 + swaps_of t2)%nat.
Proof.
  induction t1 as [|e t1 IH]; [reflexivity|].
  destruct e; simpl; rewrite IH; reflexivity.
Qed.

Lemma lookups_insert_same (cs : list Consumer) i c c' :
  cs !! i = Some c -> originalPositionFor c' = originalPositionFor c ->
  lookups (<[i := c']> cs) = lookups cs.
Proof.
  revert i. induction cs as [|d cs IH]; intros [|i]; simpl; try discriminate.
  - intros [= ->] E. rewrite E. reflexivity.
  - intros H E. unfold lookups in *. simpl. f_equal. apply IH; assumption.
Qed.

(** Under the 1-based contract a line is truthy exactly when it is defined. *)
Lemma truthy_line_defined v :
  orig_line v <> Some 0%Z ->
  truthy_line v = match orig_line v with Some _ => true | None => false end.
Proof.
  unfold truthy_line. destruct (orig_line v) as [z|]; [|reflexivity].
  intros H. destruct (Z.eqb_spec z 0); [subst; congruence|reflexivity].
Qed.

(** The result of the loop is the stateless first match. *)
Lemma scan_first_match debug lookup : forall pending index st,
  one_based pending ->
  fst (scan debug lookup pending index st) = first_match (lookups pending) lookup.
Proof.
  induction pending as [|c rest IH]; intros index st Hb; [reflexivity|].
  inversion Hb as [|? ? Hc Hrest]; subst. simpl.
  destruct (originalPositionFor c lookup) as [v|e] eqn:E; [|reflexivity].
  rewrite (truthy_line_defined v (Hc lookup v E)).
  destruct (orig_line v); [reflexivity|]. apply IH. exact Hrest.
Qed.

(** The loop asks the tables in order and stops where the first match does. *)
Lemma scan_queries debug lookup : forall pending index st,
  one_based pending ->
  queries_of (trace (snd (scan debug lookup pending index st)))
  = queries_of (trace st) ++ seq index (probes (lookups pending) lookup).
Proof.
  induction pending as [|c rest IH]; intros index st Hb.
  - simpl. rewrite app_nil_r. reflexivity.
  - inversion Hb as [|? ? Hc Hrest]; subst. simpl.
    destruct (originalPositionFor c lookup) as [v|e] eqn:E.
    + rewrite (truthy_line_defined v (Hc lookup v E)).
      destruct (orig_line v).
      * destruct debug, (preferredConsumerOrder st) eqn:Hp, (Nat.eqb index 0); simpl;
          rewrite ?Hp; simpl;
          rewrite ?queries_of_app; simpl; rewrite ?queries_of_app; simpl;
          rewrite ?app_nil_r; reflexivity.
      * rewrite IH by exact Hrest.
        destruct debug; simpl; rewrite queries_of_app; simpl;
          rewrite <- app_assoc; reflexivity.
    + simpl. rewrite queries_of_app. reflexivity.
Qed.

(** The loop never changes which table sits at which index. *)
Lemma scan_keeps_order debug lookup : forall pending index st,
  drop index (consumers st) = pending ->
  lookups (consumers (snd (scan debug lookup pending index st))) = lookups (consumers st).
Proof.
  induction pending as [|c rest IH]; intros index st Hd; [reflexivity|].
  simpl. destruct (originalPositionFor c lookup) as [v|e] eqn:E; [|reflexivity].
  assert (Hc : consumers st !! index = Some c).
  { pose proof (lookup_drop (consumers st) index 0) as L.
    rewrite Hd, Nat.add_0_r in L. symmetry. exact L. }
  destruct (truthy_line v).
  - destruct debug, (preferredConsumerOrder st) eqn:Hp, (Nat.eqb index 0); simpl;
      rewrite ?Hp; simpl; try reflexivity;
      apply (lookups_insert_same _ _ c); auto.
  - rewrite IH.
    + destruct debug; reflexivity.
    + pose proof (drop_S _ _ _ Hc) as D. rewrite Hd in D.
      destruct debug; simpl; congruence.
Qed.

Lemma findPosition_keeps_order debug lookup st :
  lookups (consumers (snd (findPositionInAllSourceMaps debug lookup st)))
  = lookups (consumers st).
Proof.
  unfold findPositionInAllSourceMaps.
  destruct (consumers st) as [|c cs] eqn:E; [simpl; rewrite E; reflexivity|].
  rewrite <- E. apply scan_keeps_order. apply drop_0.
Qed.

(** C4: for every lookup (so for every frame with a usable line number)
    and every state, whatever the preference flag is, the resolver returns
    what the stateless first-match resolver returns over the tables in
    their current order; it asks the tables in that order and none after
    the first match; and it leaves the order as it found it.  The tables
    are assumed to follow the source-map contract of 1-based original
    lines. *)
Theorem C4_resolver_is_first_match :
  forall (debug : bool) (lookup : Lookup) (st : state),
  one_based (consumers st) ->
  fst (findPositionInAllSourceMaps debug lookup st)
    = first_match (lookups (consumers st)) lookup
  /\ queries_of (trace (snd (findPositionInAllSourceMaps debug lookup st)))
    = queries_of (trace st) ++ seq 0 (probes (lookups (consumers st)) lookup)
  /\ lookups (consumers (snd (findPositionInAllSourceMaps debug lookup st)))
    = lookups (consumers st).
Proof.
  intros debug lookup st Hb. split; [|split].
  - unfold findPositionInAllSourceMaps.
    destruct (consumers st) as [|c cs] eqn:E; [reflexivity|].
    apply scan_first_match. exact Hb.
  - unfold findPositionInAllSourceMaps.
    destruct (consumers st) as [|c cs] eqn:E.
    + simpl. rewrite app_nil_r. reflexivity.
    + apply scan_queries. exact Hb.
  - apply findPosition_keeps_order.
Qed.

Lemma one_based_samples : one_based (consumers (with_tables [table_miss; table_foo])).
Proof.
  repeat constructor; intros lookup v [= <-]; discriminate.
Qed.

Lemma C4_witness :
  fst (findPositionInAllSourceMaps false lookup_1_10 (with_tables [table_miss; table_foo]))
    = Ok (Some foo_ts)
  /\ queries_of (trace (snd (findPositionInAllSourceMaps false lookup_1_10
                               (with_tables [table_miss; table_foo]))))
    = [0; 1]%nat.
Proof.
  pose proof (C4_resolver_is_first_match false lookup_1_10
                (with_tables [table_miss; table_foo]) one_based_samples) as [H1 [H2 _]].
  split; [exact H1|exact H2].
Defined.

(** Outside that contract the two differ: a table that reports line 0 is
    passed over by the truthiness test of the loop. *)
Example line_zero_is_passed_over :
  fst (findPositionInAllSourceMaps false lookup_1_10 (with_tables [fun _ => Ok line_zero]))
    = Ok None
  /\ first_match [fun _ => Ok line_zero] lookup_1_10 = Ok (Some line_zero).
Proof. split; reflexivity. Qed.

(** C1 (the code falls short of it): with two tables of which only the
    second resolves the frame, the first successful resolution happens at
    index 1 and runs the swap branch; the branch writes the properties [0]
    and [1] of the consumer object itself, the array of consumers keeps its
    order, and the next lookup asks table 0 first again. *)
Theorem C1_swap_leaves_the_order :
  let st0 := with_tables [table_miss; table_foo] in
  let r1 := findPositionInAllSourceMaps false lookup_1_10 st0 in
  let r2 := findPositionInAllSourceMaps false lookup_1_10 (snd r1) in
  fst r1 = Ok (Some foo_ts)
  /\ trace (snd r1) = [EvQuery 0 lookup_1_10; EvQuery 1 lookup_1_10; EvSwap 1]
  /\ preferredConsumerOrder (snd r1) = true
  /\ lookups (consumers (snd r1)) = [table_miss; table_foo]
  /\ (fun c => get_prop c 0) <$> consumers (snd r1) !! 1%nat = Some (SPosition foo_ts)
  /\ (fun c => get_prop c 1) <$> consumers (snd r1) !! 1%nat = Some SUndefined
  /\ queries_of (trace (snd r2)) = [0; 1; 0; 1]%nat.
Proof.
  repeat split; vm_compute; reflexivity.
Qed.

(** ** The renderer *)

Lemma no_line_cases f :
  no_line f = true ->
  lineNumber f = None \/ exists n, lineNumber f = Some n /\ (n <? 1)%Z = true.
Proof.
  unfold no_line. destruct (lineNumber f) as [n|]; [|auto]. intros H. right. eauto.
Qed.

(** C5: a frame whose line is [null] or below 1 is rendered without any
    table being asked (the trace of calls, the tables and the flag are as
    before) and adds exactly one console line: [    at <methodName>], or
    [    at [unknown]] when the method name is absent (or empty). *)
Theorem C5_frames_without_line :
  forall (debug : bool) (f : StackFrame) (st : state),
  no_line f = true ->
  trace (renderFrame debug f st) = trace st
  /\ consumers (renderFrame debug f st) = consumers st
  /\ preferredConsumerOrder (renderFrame debug f st) = preferredConsumerOrder st
  /\ console (renderFrame debug f st)
     = console st ++ [OutFrame (js "    at " ++
                                match methodName f with
                                | Some (c :: m) => c :: m
                                | _ => js "[unknown]"
                                end)].
Proof.
  intros debug f st H. unfold renderFrame.
  destruct (no_line_cases f H) as [E|(n & E & Hn)]; rewrite E, ?Hn;
    repeat split; reflexivity.
Qed.

Lemma C5_witness :
  console (renderFrame false frame_native (with_tables [table_foo]))
  = [OutFrame (js "    at [unknown]")]
  /\ trace (renderFrame false frame_native (with_tables [table_foo])) = [].
Proof.
  pose proof (C5_frames_without_line false frame_native (with_tables [table_foo]) eq_refl)
    as (H1 & _ & _ & H2).
  split; [exact H2|exact H1].
Defined.

Lemma scan_all_miss debug lookup : forall pending index st,
  Forall (not_found_in lookup) pending ->
  fst (scan debug lookup pending index st) = Ok None
  /\ console (snd (scan debug lookup pending index st))
     = console st ++ (if debug then repeat (OutDebug debug_lookup_line) (length pending)
                      else [])
  /\ queries_of (trace (snd (scan debug lookup pending index st)))
     = queries_of (trace st) ++ seq index (length pending).
Proof.
  induction pending as [|c rest IH]; intros index st Hall.
  - simpl. destruct debug; rewrite !app_nil_r; auto.
  - inversion Hall as [|? ? (v & E & Hv) Hrest]; subst. simpl. rewrite E.
    unfold truthy_line. rewrite Hv.
    destruct (IH (S index)
                (if debug then print (OutDebug debug_lookup_line)
                                (record (EvQuery index lookup) st)
                 else record (EvQuery index lookup) st) Hrest) as (H1 & H2 & H3).
    rewrite H1, H2, H3. split; [reflexivity|].
    destruct debug; simpl; rewrite queries_of_app; simpl; rewrite <- !app_assoc; auto.
Qed.

(** C8: a frame with a usable line number that every table reports as
    "not found" adds no line of the rendered trace: every table is asked
    once, and the console gains nothing at all, or, in debug mode, only the
    resolver's diagnostic, once per table. *)
Theorem C8_unresolved_frames_are_dropped :
  forall (debug : bool) (f : StackFrame) (st : state) (n : Z),
  lineNumber f = Some n -> (1 <= n)%Z ->
  Forall (not_found_in {| lk_line := n; lk_column := column f |}) (consumers st) ->
  console (renderFrame debug f st)
    = console st ++ (if debug
                     then repeat (OutDebug debug_lookup_line) (length (consumers st))
                     else [])
  /\ List.filter is_trace_line (console (renderFrame debug f st))
     = List.filter is_trace_line (console st)
  /\ queries_of (trace (renderFrame debug f st))
     = queries_of (trace st) ++ seq 0 (length (consumers st)).
Proof.
  intros debug f st n E Hn Hall.
  assert (Hc : console (renderFrame debug f st)
               = console st ++ (if debug
                                then repeat (OutDebug debug_lookup_line) (length (consumers st))
                                else [])
          /\ queries_of (trace (renderFrame debug f st))
             = queries_of (trace st) ++ seq 0 (length (consumers st))).
  { unfold renderFrame. rewrite E.
    destruct (Z.ltb_spec n 1) as [|_]; [lia|].
    unfold findPositionInAllSourceMaps.
    destruct (consumers st) as [|c cs] eqn:Ecs.
    - simpl. destruct debug; rewrite !app_nil_r; auto.
    - destruct (scan_all_miss debug {| lk_line := n; lk_column := column f |}
                  (c :: cs) 0 st Hall) as (H1 & H2 & H3).
      destruct (scan debug _ (c :: cs) 0 st) as [r st'] eqn:Es.
      simpl in H1, H2, H3. subst r. auto. }
  destruct Hc as [Hc Hq]. split; [exact Hc|split; [|exact Hq]].
  rewrite Hc, List.filter_app.
  destruct debug; [|rewrite app_nil_r; reflexivity].
  clear. induction (length (consumers st)) as [|k IH]; [rewrite app_nil_r; reflexivity|].
  simpl. exact IH.
Qed.

Lemma all_miss_sample :
  Forall (not_found_in {| lk_line := 1; lk_column := column frame_foo |})
         (consumers (with_tables [table_miss; table_miss])).
Proof. repeat constructor; exists not_found; split; reflexivity. Qed.

Lemma C8_witness :
  console (renderFrame false frame_foo (with_tables [table_miss; table_miss])) = [].
Proof.
  exact (proj1 (C8_unresolved_frames_are_dropped false frame_foo
                  (with_tables [table_miss; table_miss]) 1%Z eq_refl
                  (Z.le_refl 1) all_miss_sample)).
Defined.

(** ** The preference flag *)

Lemma flag_step_quiet st st' hit :
  preferredConsumerOrder st' = preferredConsumerOrder st ->
  swaps_of (trace st') = swaps_of (trace st) ->
  consumers st' = consumers st ->
  forall st'', flag_step st' st'' hit -> flag_step st st'' hit.
Proof.
  unfold flag_step. intros Hf Ht Hc st'' H. rewrite <- Hf, <- Ht, <- Hc. exact H.
Qed.

Lemma scan_flag debug lookup : forall pending index st,
  flag_step st (snd (scan debug lookup pending index st))
            (is_hit (fst (scan debug lookup pending index st))).
Proof.
  induction pending as [|c rest IH]; intros index st; simpl.
  - unfold flag_step. simpl. rewrite orb_false_r. auto.
  - destruct (originalPositionFor c lookup) as [v|e]; simpl.
    + destruct (truthy_line v).
      * unfold flag_step.
        destruct debug, (preferredConsumerOrder st) eqn:Hp, (Nat.eqb index 0);
          repeat (progress (simpl; rewrite ?Hp, ?swaps_of_app, ?Nat.add_0_r));
          (split; [reflexivity|split; [intros; try discriminate; auto|]]);
          first [left; reflexivity | right; repeat split; lia].
      * eapply flag_step_quiet; [| | |apply IH].
        -- destruct debug; reflexivity.
        -- destruct debug; simpl; rewrite swaps_of_app; simpl; lia.
        -- destruct debug; reflexivity.
    + unfold flag_step. simpl.
      rewrite orb_false_r, swaps_of_app. simpl. rewrite Nat.add_0_r. auto.
Qed.

Lemma findPosition_flag debug lookup st :
  flag_step st (snd (findPositionInAllSourceMaps debug lookup st))
            (is_hit (fst (findPositionInAllSourceMaps debug lookup st))).
Proof.
  unfold findPositionInAllSourceMaps.
  destruct (consumers st) as [|c cs].
  - unfold flag_step. simpl. rewrite orb_false_r. auto.
  - apply scan_flag.
Qed.

Lemma flag_step_print st st' hit o :
  flag_step st st' hit -> flag_step st (print o st') hit.
Proof. unfold flag_step. simpl. auto. Qed.

Lemma renderFrame_flag debug f st :
  flag_step st (renderFrame debug f st) (resolves debug f st).
Proof.
  unfold renderFrame, resolves.
  destruct (lineNumber f) as [n|];
    [|unfold flag_step; simpl; rewrite orb_false_r; auto].
  destruct (n <? 1)%Z; [unfold flag_step; simpl; rewrite orb_false_r; auto|].
  pose proof (findPosition_flag debug {| lk_line := n; lk_column := column f |} st) as H.
  destruct (findPositionInAllSourceMaps debug _ st) as [[[pos|]|e] st']; simpl in *.
  - destruct (orig_line pos); [apply flag_step_print|]; exact H.
  - exact H.
  - apply flag_step_print. exact H.
Qed.

Lemma flag_step_settled st st' hit :
  flag_step st st' hit -> settled_inv st -> settled_inv st'.
Proof.
  unfold flag_step, settled_inv. intros (Hf & Hs & [Hk|(Hp & Hp' & Hk)]) H.
  - rewrite Hk, Hf. destruct (preferredConsumerOrder st); simpl; [exact H|].
    destruct hit; lia.
  - rewrite Hp in H. rewrite Hp', Hk. lia.
Qed.

Lemma renderFrame_settled debug f st :
  settled_inv st -> settled_inv (renderFrame debug f st).
Proof. apply flag_step_settled with (hit := resolves debug f st), renderFrame_flag. Qed.

Lemma renderAll_settled debug stack : forall st,
  settled_inv st -> settled_inv (renderAll debug stack st).
Proof.
  induction stack as [|f rest IH]; intros st H; simpl; [exact H|].
  apply IH, renderFrame_settled, H.
Qed.

Lemma passes_head debug stack st : passes debug stack st !! 0%nat = Some st.
Proof. destruct stack; reflexivity. Qed.

Lemma passes_step debug : forall stack st i s s' f,
  passes debug stack st !! i = Some s ->
  passes debug stack st !! S i = Some s' ->
  stack !! i = Some f ->
  s' = renderFrame debug f s.
Proof.
  induction stack as [|f0 rest IH]; intros st i s s' f Hs Hs' Hf; [discriminate|].
  destruct i as [|i]; simpl in *.
  - injection Hs as <-. injection Hf as <-.
    rewrite passes_head in Hs'. congruence.
  - eapply IH; eassumption.
Qed.

Lemma passes_bound debug : forall stack st s,
  In s (passes debug stack st) ->
  (swaps_of (trace s)
   <= swaps_of (trace st) + if preferredConsumerOrder st then 0 else 1)%nat.
Proof.
  induction stack as [|f rest IH]; intros st s; simpl.
  - intros [<-|[]]. lia.
  - intros [<-|Hin]; [lia|].
    apply IH in Hin.
    destruct (renderFrame_flag debug f st) as (Hf & _ & [Hk|(Hp & Hp' & Hk)]).
    + rewrite Hk, Hf in Hin.
      destruct (preferredConsumerOrder st); simpl in Hin; [exact Hin|].
      destruct (resolves debug f st); lia.
    + rewrite Hp. rewrite Hp', Hk in Hin. lia.
Qed.

(** ** Invariants through the control flow *)

Section Preserves.
Context {A B : Type} (P : state -> Prop).

Lemma preserves_ret (a : A) : preserves P (ret a).
Proof. intros st H. exact H. Qed.

Lemma preserves_throw (e : exn) : preserves P (throw e : M A).
Proof. intros st H. exact H. Qed.

Lemma preserves_return : preserves P (return_ : M A).
Proof. intros st H. exact H. Qed.

Lemma preserves_exit (code : Z) : preserves P (exit code : M A).
Proof. intros st H. exact H. Qed.

Lemma preserves_bind (m : M A) (f : A -> M B) :
  preserves P m -> (forall a, preserves P (f a)) -> preserves P (bind m f).
Proof.
  intros Hm Hf st H. unfold bind. specialize (Hm st H).
  destruct (m st) as [[a|e| |c] st']; simpl in *; try exact Hm.
  apply Hf, Hm.
Qed.

Lemma preserves_try_catch (body : M A) (handler : exn -> M A) :
  preserves P body -> (forall e, preserves P (handler e)) ->
  preserves P (try_catch body handler).
Proof.
  intros Hm Hh st H. unfold try_catch. specialize (Hm st H).
  destruct (body st) as [[a|e| |c] st']; simpl in *; try exact Hm.
  apply Hh, Hm.
Qed.

Lemma preserves_call (e : event) (o : outcome A) :
  (forall st, P st -> P (record e st)) -> preserves P (call e o).
Proof. intros He st H. unfold call. destruct o; simpl; apply He, H. Qed.

End Preserves.

Lemma preserves_get (P : state -> Prop) : preserves P get.
Proof. intros st H. exact H. Qed.

Lemma preserves_modify (P : state -> Prop) (f : state -> state) :
  (forall st, P st -> P (f st)) -> preserves P (modify f).
Proof. intros Hf st H. apply Hf, H. Qed.

Lemma preserves_when (P : state -> Prop) (b : bool) (m : M unit) :
  preserves P m -> preserves P (when b m).
Proof. intros Hm. destruct b; [exact Hm|apply preserves_ret]. Qed.

(** The loaders touch the console only with diagnostics, the trace only
    with their own calls, and the array only by appending to it. *)
Section Loaders.
Variable P : state -> Prop.
Hypothesis P_print : forall o st, is_trace_line o = false -> P st -> P (print o st).
Hypothesis P_record : forall e st,
  is_parse_event e = false -> swaps_of [e] = 0%nat -> P st -> P (record e st).
Hypothesis P_consumers : forall cs st, P st -> P (set_consumers cs st).

Lemma preserves_say o : is_trace_line o = false -> preserves P (say o).
Proof. intros Ho. apply preserves_modify. intros st. apply P_print, Ho. Qed.

Lemma preserves_push smc : preserves P (push smc).
Proof. apply preserves_modify. intros st. apply P_consumers. Qed.

Lemma preserves_showHelp : preserves P (showHelp : M unit).
Proof.
  apply preserves_bind; [apply preserves_say; reflexivity|].
  intros _. apply preserves_exit.
Qed.

Ltac loader_step :=
  first
    [ apply preserves_bind; [|intros ?]
    | apply preserves_when
    | apply preserves_say; reflexivity
    | apply preserves_call; intros ?; apply P_record; reflexivity
    | apply preserves_push
    | apply preserves_ret
    | apply preserves_return
    | apply preserves_throw
    | apply preserves_get ].

Lemma load_one_001_preserves W debug m : preserves P (Part001.load_one W debug m).
Proof.
  unfold Part001.load_one. repeat loader_step.
  match goal with |- preserves P (match ?x with _ => _ end) => destruct x end;
    repeat loader_step.
Qed.

Lemma load_array_001_preserves W debug ms : preserves P (Part001.load_array W debug ms).
Proof.
  induction ms as [|m rest IH]; simpl; [apply preserves_ret|].
  apply preserves_bind; [apply load_one_001_preserves|intros _; exact IH].
Qed.

Lemma loadConsumers_001_preserves W debug mapPath :
  preserves P (Part001.loadConsumers W debug mapPath).
Proof.
  unfold Part001.loadConsumers. apply preserves_try_catch.
  - destruct mapPath as [|ms|p]; unfold Part001.load_single; repeat loader_step.
    apply load_array_001_preserves.
  - intros e. apply preserves_say. reflexivity.
Qed.

Lemma load_one_000_preserves W debug m : preserves P (Part000.load_one W debug m).
Proof. unfold Part000.load_one. repeat loader_step. Qed.

Lemma load_array_000_preserves W debug ms : preserves P (Part000.load_array W debug ms).
Proof.
  induction ms as [|m rest IH]; simpl; [apply preserves_ret|].
  apply preserves_bind; [apply load_one_000_preserves|intros _; exact IH].
Qed.

Lemma loadConsumers_000_preserves W debug mapPath :
  preserves P (Part000.loadConsumers W debug mapPath).
Proof.
  unfold Part000.loadConsumers. apply preserves_try_catch.
  - destruct mapPath as [|ms|p]; unfold Part000.load_single; repeat loader_step.
    apply load_array_000_preserves.
  - intros e. apply preserves_say. reflexivity.
Qed.

End Loaders.

Lemma settled_print o st : settled_inv st -> settled_inv (print o st).
Proof. exact (fun H => H). Qed.

Lemma settled_record e st :
  swaps_of [e] = 0%nat -> settled_inv st -> settled_inv (record e st).
Proof.
  intros He H. unfold settled_inv in *. simpl. rewrite swaps_of_app, He. lia.
Qed.

Lemma settled_set_consumers cs st : settled_inv st -> settled_inv (set_consumers cs st).
Proof. exact (fun H => H). Qed.

Lemma settled_initial : settled_inv initial.
Proof. unfold settled_inv. simpl. lia. Qed.

Ltac settled_step :=
  lazymatch goal with
  | |- preserves _ (bind _ _) => apply preserves_bind; [|intros ?]
  | |- preserves _ (try_catch _ _) => apply preserves_try_catch; [|intros ?]
  | |- preserves _ (when _ _) => apply preserves_when
  | |- preserves _ showHelp =>
      apply preserves_showHelp; intros ? ? _; apply settled_print
  | |- preserves _ (Part001.loadConsumers _ _ _) =>
      apply loadConsumers_001_preserves;
        [intros ? ? _; apply settled_print
        |intros ? ? _; apply settled_record
        |apply settled_set_consumers]
  | |- preserves _ (Part000.loadConsumers _ _ _) =>
      apply loadConsumers_000_preserves;
        [intros ? ? _; apply settled_print
        |intros ? ? _; apply settled_record
        |apply settled_set_consumers]
  | |- preserves _ (call _ _) =>
      apply preserves_call; intros ?; apply settled_record; reflexivity
  | |- preserves _ (say _) => apply preserves_modify; intros ?; apply settled_print
  | |- preserves _ (modify (renderAll _ _)) =>
      apply preserves_modify; intros ?; apply renderAll_settled
  | |- preserves _ (ret _) => apply preserves_ret
  | |- preserves _ return_ => apply preserves_return
  | |- preserves _ (throw _) => apply preserves_throw
  | |- preserves _ get => apply preserves_get
  end.

Lemma render_settled W debug str : preserves settled_inv (render W debug str).
Proof.
  unfold render. apply preserves_bind; [settled_step|intros stack].
  destruct stack; repeat settled_step.
Qed.

Lemma body_001_settled W mapPath file debug :
  preserves settled_inv (Part001.body W mapPath file debug).
Proof.
  unfold Part001.body.
  apply preserves_try_catch; [|intros e; settled_step].
  apply preserves_bind; [repeat settled_step|intros _].
  apply preserves_bind; [settled_step|intros _].
  apply preserves_bind; [apply preserves_get|intros st1].
  destruct (consumers st1); [apply preserves_throw|].
  unfold Part001.after_load.
  apply preserves_bind; [destruct file; repeat settled_step|].
  intros str. apply render_settled.
Qed.

Lemma body_000_settled W mapPath file debug :
  preserves settled_inv (Part000.body W mapPath file debug).
Proof.
  unfold Part000.body.
  apply preserves_try_catch; [|intros e; settled_step].
  apply preserves_bind; [repeat settled_step|intros _].
  apply preserves_bind; [settled_step|intros _].
  apply preserves_bind; [apply preserves_get|intros st1].
  destruct (consumers st1); [repeat settled_step|].
  unfold Part000.after_load.
  apply preserves_bind; [destruct file; repeat settled_step|].
  intros str.
  destruct (Nat.eqb (length str) 0 || negb (includes (js "at") str));
    [repeat settled_step|apply render_settled].
Qed.

Lemma snd_finish r : snd (finish r) = snd r.
Proof. destruct r as [[a|e| |c] st]; reflexivity. Qed.

(** C6: the flag starts false; over the frames of a rendering pass it
    becomes true exactly when a frame resolves and never returns to false;
    once it is true a frame adds no reorder event and leaves the consumers
    alone, whichever table resolves it; a pass adds at most one reorder
    event, and none when it starts with the flag true; and a whole run of
    either revision ends with at most one reorder event. *)
Theorem C6_preference_flag :
  preferredConsumerOrder initial = false
  /\ (forall (debug : bool) (stack : list StackFrame) (st0 : state),
        let run := passes debug stack st0 in
        (forall (i : nat) (st st' : state) (f : StackFrame),
            run !! i = Some st -> run !! S i = Some st' -> stack !! i = Some f ->
            preferredConsumerOrder st'
              = preferredConsumerOrder st || resolves debug f st
            /\ (preferredConsumerOrder st = true ->
                preferredConsumerOrder st' = true
                /\ swaps_of (trace st') = swaps_of (trace st)
                /\ consumers st' = consumers st))
        /\ (forall st, In st run ->
              (swaps_of (trace st)
               <= swaps_of (trace st0)
                  + if preferredConsumerOrder st0 then 0 else 1)%nat))
  /\ (forall (W : world) (mapPath : MapPath) (file : option jsstring) (debug : bool),
        (swaps_of (trace (snd (Part001.stacktracify W mapPath file debug))) <= 1)%nat
        /\ (swaps_of (trace (snd (Part000.stacktracify W mapPath file debug))) <= 1)%nat).
Proof.
  split; [reflexivity|split].
  - intros debug stack st0 run. split.
    + intros i st st' f Hs Hs' Hf.
      rewrite (passes_step debug stack st0 i st st' f Hs Hs' Hf).
      destruct (renderFrame_flag debug f st) as (H1 & H2 & _).
      split; [exact H1|]. intros Hp. rewrite H1, Hp. split; [reflexivity|auto].
    + intros st Hin. apply (passes_bound debug stack st0 st Hin).
  - intros W mapPath file debug.
    assert (Hle : forall st, settled_inv st -> (swaps_of (trace st) <= 1)%nat).
    { unfold settled_inv. intros st H. destruct (preferredConsumerOrder st); lia. }
    split; apply Hle.
    + unfold Part001.stacktracify. rewrite snd_finish.
      apply body_001_settled, settled_initial.
    + unfold Part000.stacktracify. rewrite snd_finish.
      apply body_000_settled, settled_initial.
Qed.

(** ** Loading the documents *)

Lemma bind_normal {A B : Type} (m : M A) (f : A -> M B) st a st' :
  m st = (Normal a, st') -> bind m f st = f a st'.
Proof. unfold bind. intros ->. reflexivity. Qed.

Lemma bind_throw {A B : Type} (m : M A) (f : A -> M B) st e st' :
  m st = (Throw e, st') -> bind m f st = (Throw e, st').
Proof. unfold bind. intros ->. reflexivity. Qed.

Lemma load_one_001_ok W debug m c st :
  loads W m c ->
  exists st', Part001.load_one W debug m st = (Normal tt, st')
              /\ consumers st' = consumers st ++ [c].
Proof.
  intros (text & doc & Hr & Ht & Hp & Hn).
  unfold Part001.load_one, bind, call, when, say, modify, ret, push.
  destruct debug; simpl; rewrite Hr; simpl;
    (destruct text as [|x text]; [congruence|]);
    rewrite Hp; simpl; rewrite Hn; simpl; eauto.
Qed.

Lemma load_one_001_fails W debug m e st :
  load_error W m = Some e -> readFile W m <> Ok [] ->
  exists st', Part001.load_one W debug m st = (Throw e, st')
              /\ consumers st' = consumers st
              /\ console st' = console st
                   ++ (if debug
                       then [OutDebug (js "Loading " ++ m ++ js " as source map consumer!")]
                       else []).
Proof.
  unfold load_error, Part001.load_one, bind, call, when, say, modify, ret, push.
  intros He Hne.
  destruct (readFile W m) as [[|x text]|e1]; [exfalso; apply Hne; reflexivity| |];
    [destruct (JSON_parse W (x :: text)) as [doc|e2];
       [destruct (new_SourceMapConsumer W doc) as [c|e3]; [discriminate|]|]|];
    injection He as <-; destruct debug; simpl; rewrite ?app_nil_r; eauto.
Qed.

Lemma load_array_001_stops W debug e bad post : forall pre cs st,
  Forall2 (loads W) pre cs -> load_error W bad = Some e -> readFile W bad <> Ok [] ->
  exists st', Part001.load_array W debug (pre ++ bad :: post) st = (Throw e, st')
              /\ consumers st' = consumers st ++ cs.
Proof.
  induction pre as [|m pre IH]; intros cs st Hpre Hbad Hne.
  - inversion Hpre; subst. simpl.
    destruct (load_one_001_fails W debug bad e st Hbad Hne) as (st' & H1 & H2 & _).
    exists st'. rewrite (bind_throw _ _ _ _ _ H1), app_nil_r. auto.
  - inversion Hpre as [|? c ? cs' Hm Hrest]; subst. simpl.
    destruct (load_one_001_ok W debug m c st Hm) as (st' & H1 & H2).
    destruct (IH cs' st' Hrest Hbad Hne) as (st'' & H3 & H4).
    exists st''. rewrite (bind_normal _ _ _ _ _ H1), H3, H4, H2, <- app_assoc. auto.
Qed.

Lemma load_one_000_ok W debug m c st :
  loads W m c ->
  exists st', Part000.load_one W debug m st = (Normal tt, st')
              /\ consumers st' = consumers st ++ [c].
Proof.
  intros (text & doc & Hr & Ht & Hp & Hn).
  unfold Part000.load_one, bind, call, when, say, modify, ret, push.
  destruct debug; simpl; rewrite Hr; simpl;
    rewrite Hp; simpl; rewrite Hn; simpl; eauto.
Qed.

Lemma load_one_000_fails W debug m e st :
  load_error W m = Some e ->
  exists st', Part000.load_one W debug m st = (Throw e, st')
              /\ consumers st' = consumers st
              /\ console st' = console st
                   ++ (if debug
                       then [OutDebug (js "Loading " ++ m ++ js " as source map consumer!")]
                       else []).
Proof.
  unfold load_error, Part000.load_one, bind, call, when, say, modify, ret, push.
  intros He.
  destruct (readFile W m) as [text|e1];
    [destruct (JSON_parse W text) as [doc|e2];
       [destruct (new_SourceMapConsumer W doc) as [c|e3]; [discriminate|]|]|];
    injection He as <-; destruct debug; simpl; rewrite ?app_nil_r; eauto.
Qed.

Lemma load_array_000_stops W debug e bad post : forall pre cs st,
  Forall2 (loads W) pre cs -> load_error W bad = Some e ->
  exists st', Part000.load_array W debug (pre ++ bad :: post) st = (Throw e, st')
              /\ consumers st' = consumers st ++ cs.
Proof.
  induction pre as [|m pre IH]; intros cs st Hpre Hbad.
  - inversion Hpre; subst. simpl.
    destruct (load_one_000_fails W debug bad e st Hbad) as (st' & H1 & H2 & _).
    exists st'. rewrite (bind_throw _ _ _ _ _ H1), app_nil_r. auto.
  - inversion Hpre as [|? c ? cs' Hm Hrest]; subst. simpl.
    destruct (load_one_000_ok W debug m c st Hm) as (st' & H1 & H2).
    destruct (IH cs' st' Hrest Hbad) as (st'' & H3 & H4).
    exists st''. rewrite (bind_normal _ _ _ _ _ H1), H3, H4, H2, <- app_assoc. auto.
Qed.

Lemma good_map_loads : loads sample_world (js "good.map") (consumer_of table_foo).
Proof. exists (js "{}"), (js "{}"). repeat split; try reflexivity. discriminate. Qed.

Lemma good_maps_load :
  Forall2 (loads sample_world) [js "good.map"] [consumer_of table_foo].
Proof. repeat constructor. exact good_map_loads. Qed.

(** C2 as stated fails: [good.map] is a well-formed document, but listed
    after the malformed [bad.map] it yields no table, in either revision. *)
Lemma C2_counterexample :
  loads sample_world (js "good.map") (consumer_of table_foo)
  /\ consumers (snd (Part001.loadConsumers sample_world false
                       (MPArray [js "bad.map"; js "good.map"]) initial)) = []
  /\ consumers (snd (Part000.loadConsumers sample_world false
                       (MPArray [js "bad.map"; js "good.map"]) initial)) = [].
Proof.
  split; [exact good_map_loads|]. split; vm_compute; reflexivity.
Qed.

(** ** How the body completes *)

Section Ends.
Context {A B : Type} (r x : bool).

Lemma ends_ret (a : A) : ends r x (ret a).
Proof. intros st. reflexivity. Qed.

Lemma ends_throw (e : exn) : ends r x (throw e : M A).
Proof. intros st. reflexivity. Qed.

Lemma ends_call (e : event) (o : outcome A) : ends r x (call e o).
Proof. intros st. unfold call. destruct o; reflexivity. Qed.

Lemma ends_bind (m : M A) (f : A -> M B) :
  ends r x m -> (forall a, ends r x (f a)) -> ends r x (bind m f).
Proof.
  intros Hm Hf st. unfold bind. specialize (Hm st).
  destruct (m st) as [[a|e| |c] st']; simpl in *; auto. apply Hf.
Qed.

Lemma ends_try_catch (body : M A) (handler : exn -> M A) :
  ends r x body -> (forall e, ends r x (handler e)) -> ends r x (try_catch body handler).
Proof.
  intros Hm Hh st. unfold try_catch. specialize (Hm st).
  destruct (body st) as [[a|e| |c] st']; simpl in *; auto. apply Hh.
Qed.

End Ends.

Lemma ends_return {A : Type} (x : bool) : ends true x (return_ : M A).
Proof. intros st. reflexivity. Qed.

Lemma ends_get (r x : bool) : ends r x get.
Proof. intros st. reflexivity. Qed.

Lemma ends_modify (r x : bool) f : ends r x (modify f).
Proof. intros st. reflexivity. Qed.

Lemma ends_when (r x : bool) b m : ends r x m -> ends r x (when b m).
Proof. intros H. destruct b; [exact H|apply ends_ret]. Qed.

Ltac ends_step :=
  lazymatch goal with
  | |- ends _ _ (bind _ _) => apply ends_bind; [|intros ?]
  | |- ends _ _ (try_catch _ _) => apply ends_try_catch; [|intros ?]
  | |- ends _ _ (when _ _) => apply ends_when
  | |- ends _ _ (call _ _) => apply ends_call
  | |- ends _ _ (say _) => apply ends_modify
  | |- ends _ _ (push _) => apply ends_modify
  | |- ends _ _ (modify _) => apply ends_modify
  | |- ends _ _ (ret _) => apply ends_ret
  | |- ends _ _ (throw _) => apply ends_throw
  | |- ends true _ return_ => apply ends_return
  | |- ends _ _ get => apply ends_get
  end.



(** The loader of [part_000] always completes normally. *)
Lemma load_array_000_ends W debug ms : ends false false (Part000.load_array W debug ms).
Proof.
  induction ms as [|m rest IH]; simpl; [apply ends_ret|].
  apply ends_bind; [|intros _; exact IH].
  unfold Part000.load_one. repeat ends_step.
Qed.

Lemma loadConsumers_000_ends W debug mapPath st :
  fst (Part000.loadConsumers W debug mapPath st) = Normal tt.
Proof.
  unfold Part000.loadConsumers, try_catch.
  assert (H : ends false false
                match mapPath with
                | MPUndefined => throw bad_path
                | MPArray ms =>
                    (Part000.load_array W debug ms;;
                     st <- get;;
                     when debug (say (OutDebug (js "Loaded "
                                     ++ show_Z (Z.of_nat (length (consumers st)))
                                     ++ js " source map consumers!"))))
                | MPString p => Part000.load_single W p
                end).
  { destruct mapPath; unfold Part000.load_single; repeat ends_step.
    apply load_array_000_ends. }
  specialize (H st).
  destruct (_ st) as [[[]|e| |c] st']; simpl in *; auto; discriminate.
Qed.

(** ** Runs that load no table *)

Lemma nothing_rendered_initial : nothing_rendered initial.
Proof. split; reflexivity. Qed.

Lemma nothing_rendered_print o st :
  is_trace_line o = false -> nothing_rendered st -> nothing_rendered (print o st).
Proof.
  unfold nothing_rendered. simpl. intros Ho [H1 H2].
  rewrite List.filter_app, H1. simpl. rewrite Ho. auto.
Qed.

Lemma nothing_rendered_record e st :
  is_parse_event e = false -> nothing_rendered st -> nothing_rendered (record e st).
Proof.
  unfold nothing_rendered. simpl. intros He [H1 H2].
  rewrite List.filter_app, H2. simpl. rewrite He. auto.
Qed.

Lemma loadConsumers_001_quiet W debug mapPath :
  preserves nothing_rendered (Part001.loadConsumers W debug mapPath).
Proof.
  apply loadConsumers_001_preserves.
  - apply nothing_rendered_print.
  - intros e st He _. apply nothing_rendered_record, He.
  - intros cs st H. exact H.
Qed.

Lemma loadConsumers_000_quiet W debug mapPath :
  preserves nothing_rendered (Part000.loadConsumers W debug mapPath).
Proof.
  apply loadConsumers_000_preserves.
  - apply nothing_rendered_print.
  - intros e st He _. apply nothing_rendered_record, He.
  - intros cs st H. exact H.
Qed.

Lemma scan_holds debug lookup n : forall pending index st,
  holds n st -> holds n (snd (scan debug lookup pending index st)).
Proof.
  unfold holds.
  induction pending as [|c rest IH]; intros index st H; simpl; [exact H|].
  destruct (originalPositionFor c lookup) as [v|e]; [|exact H].
  destruct (truthy_line v).
  - destruct debug, (preferredConsumerOrder st) eqn:Hp, (Nat.eqb index 0);
      repeat (progress (simpl; rewrite ?Hp, ?length_insert)); exact H.
  - apply IH. destruct debug; exact H.
Qed.

Lemma renderFrame_holds debug f n st : holds n st -> holds n (renderFrame debug f st).
Proof.
  intros H. unfold renderFrame.
  destruct (lineNumber f) as [k|]; [|exact H].
  destruct (k <? 1)%Z; [exact H|].
  assert (H' : holds n (snd (findPositionInAllSourceMaps debug
                               {| lk_line := k; lk_column := column f |} st))).
  { unfold findPositionInAllSourceMaps.
    destruct (consumers st) eqn:E; [exact H|]. apply scan_holds, H. }
  destruct (findPositionInAllSourceMaps debug _ st) as [[[pos|]|e] st']; simpl in *;
    [destruct (orig_line pos)|..]; exact H'.
Qed.

Lemma renderAll_holds debug n stack : forall st,
  holds n st -> holds n (renderAll debug stack st).
Proof.
  induction stack as [|f rest IH]; intros st H; simpl; [exact H|].
  apply IH, renderFrame_holds, H.
Qed.

Ltac holds_step :=
  lazymatch goal with
  | |- preserves _ (bind _ _) => apply preserves_bind; [|intros ?]
  | |- preserves _ (try_catch _ _) => apply preserves_try_catch; [|intros ?]
  | |- preserves _ (when _ _) => apply preserves_when
  | |- preserves _ (call _ _) => apply preserves_call; intros ? H; exact H
  | |- preserves _ (say _) => apply preserves_modify; intros ? H; exact H
  | |- preserves _ (modify (renderAll _ _)) =>
      apply preserves_modify; intros ?; apply renderAll_holds
  | |- preserves _ (ret _) => apply preserves_ret
  | |- preserves _ return_ => apply preserves_return
  | |- preserves _ (throw _) => apply preserves_throw
  end.

Lemma render_holds W debug n str : preserves (holds n) (render W debug str).
Proof.
  unfold render. apply preserves_bind; [holds_step|intros stack].
  destruct stack; repeat holds_step.
Qed.

Lemma after_load_001_holds W file debug n :
  preserves (holds n) (Part001.after_load W file debug).
Proof.
  unfold Part001.after_load.
  apply preserves_bind; [destruct file; repeat holds_step|].
  intros str. apply render_holds.
Qed.

Lemma after_load_000_holds W file debug n :
  preserves (holds n) (Part000.after_load W file debug).
Proof.
  unfold Part000.after_load.
  apply preserves_bind; [destruct file; repeat holds_step|].
  intros str.
  destruct (Nat.eqb (length str) 0 || negb (includes (js "at") str));
    [repeat holds_step|apply render_holds].
Qed.

Lemma holds_caught (m : M unit) n st :
  preserves (holds n) m ->
  holds n st ->
  holds n (snd (finish (try_catch m (fun err => say (OutError err)) st))).
Proof.
  intros Hm H. rewrite snd_finish.
  apply (preserves_try_catch (holds n) m (fun err => say (OutError err))); [exact Hm| |exact H].
  intros e. apply preserves_modify. intros st' H'. exact H'.
Qed.

Lemma body_001_help W mapPath file debug :
  falsy_mapPath mapPath = true ->
  Part001.body W mapPath file debug initial = (Exit 2, print OutHelp initial).
Proof. intros H. unfold Part001.body. rewrite H. reflexivity. Qed.

Lemma body_001_unfold W mapPath file debug :
  falsy_mapPath mapPath = false ->
  Part001.body W mapPath file debug initial
  = match Part001.loadConsumers W debug mapPath initial with
    | (Normal _, st1) =>
        match consumers st1 with
        | [] => (Normal tt, print (OutError Part001.no_consumers) st1)
        | _ => try_catch (Part001.after_load W file debug)
                         (fun err => say (OutError err)) st1
        end
    | (Throw e, st1) => (Normal tt, print (OutError e) st1)
    | (Return, st1) => (Return, st1)
    | (Exit c, st1) => (Exit c, st1)
    end.
Proof.
  intros H. unfold Part001.body. rewrite H.
  unfold when, try_catch, bind, ret, get. simpl.
  destruct (Part001.loadConsumers W debug mapPath initial) as [[[]|e| |c] st1];
    try reflexivity.
  destruct (consumers st1); reflexivity.
Qed.

(** A run ends with nothing rendered, or with a table in the array. *)
Lemma run_001_cases W mapPath file debug :
  nothing_rendered (snd (Part001.stacktracify W mapPath file debug))
  \/ consumers (snd (Part001.stacktracify W mapPath file debug)) <> [].
Proof.
  unfold Part001.stacktracify.
  destruct (falsy_mapPath mapPath) eqn:Hf.
  - rewrite (body_001_help _ _ _ _ Hf). left. split; reflexivity.
  - rewrite (body_001_unfold _ _ _ _ Hf).
    pose proof (loadConsumers_001_quiet W debug mapPath initial nothing_rendered_initial)
      as Hq.
    destruct (Part001.loadConsumers W debug mapPath initial) as [[[]|e| |c] st1];
      simpl in Hq;
      try (left; first [exact Hq | apply nothing_rendered_print; [reflexivity|exact Hq]]).
    destruct (consumers st1) as [|c cs] eqn:Ecs.
    + left. apply nothing_rendered_print; [reflexivity|exact Hq].
    + right.
      pose proof (holds_caught (Part001.after_load W file debug) (S (length cs)) st1
                    (after_load_001_holds W file debug _)) as H.
      unfold holds in H. rewrite Ecs in H. specialize (H eq_refl).
      intros E. rewrite E in H. discriminate.
Qed.

Lemma body_000_help W mapPath file debug :
  falsy_mapPath mapPath = true ->
  Part000.body W mapPath file debug initial = (Exit 2, print OutHelp initial).
Proof. intros H. unfold Part000.body. rewrite H. reflexivity. Qed.

Lemma body_000_unfold W mapPath file debug :
  falsy_mapPath mapPath = false ->
  Part000.body W mapPath file debug initial
  = match Part000.loadConsumers W debug mapPath initial with
    | (Normal _, st1) =>
        match consumers st1 with
        | [] => (Return, print OutNoConsumers st1)
        | _ => try_catch (Part000.after_load W file debug)
                         (fun err => say (OutError err)) st1
        end
    | (Throw e, st1) => (Normal tt, print (OutError e) st1)
    | (Return, st1) => (Return, st1)
    | (Exit c, st1) => (Exit c, st1)
    end.
Proof.
  intros H. unfold Part000.body. rewrite H.
  unfold when, try_catch, bind, ret, get. simpl.
  destruct (Part000.loadConsumers W debug mapPath initial) as [[[]|e| |c] st1];
    try reflexivity.
  destruct (consumers st1); reflexivity.
Qed.

(** A run ends with nothing rendered, or with a table in the array. *)
Lemma run_000_cases W mapPath file debug :
  nothing_rendered (snd (Part000.stacktracify W mapPath file debug))
  \/ consumers (snd (Part000.stacktracify W mapPath file debug)) <> [].
Proof.
  unfold Part000.stacktracify.
  destruct (falsy_mapPath mapPath) eqn:Hf.
  - rewrite (body_000_help _ _ _ _ Hf). left. split; reflexivity.
  - rewrite (body_000_unfold _ _ _ _ Hf).
    pose proof (loadConsumers_000_quiet W debug mapPath initial nothing_rendered_initial)
      as Hq.
    destruct (Part000.loadConsumers W debug mapPath initial) as [[[]|e| |c] st1];
      simpl in Hq;
      try (left; first [exact Hq | apply nothing_rendered_print; [reflexivity|exact Hq]]).
    destruct (consumers st1) as [|c cs] eqn:Ecs.
    + left. apply nothing_rendered_print; [reflexivity|exact Hq].
    + right.
      pose proof (holds_caught (Part000.after_load W file debug) (S (length cs)) st1
                    (after_load_000_holds W file debug _)) as H.
      unfold holds in H. rewrite Ecs in H. specialize (H eq_refl).
      intros E. rewrite E in H. discriminate.
Qed.

(** C3, as the code has it: a run that ends with no table in the array has
    printed no header line and no frame line and has not parsed the trace
    text; and when a map path is given and the loader runs to completion
    with no table, the run stops right there with the "Unable to resolve
    source map consumers!" report as its last console line ([part_001]
    throws it to the outer catch, [part_000] prints it and returns). *)
Theorem C3_no_tables_no_trace :
  forall (W : world) (mapPath : MapPath) (file : option jsstring) (debug : bool),
  (consumers (snd (Part001.stacktracify W mapPath file debug)) = [] ->
   nothing_rendered (snd (Part001.stacktracify W mapPath file debug)))
  /\ (falsy_mapPath mapPath = false ->
      forall st1,
        Part001.loadConsumers W debug mapPath initial = (Normal tt, st1) ->
        consumers st1 = [] ->
        Part001.stacktracify W mapPath file debug
        = (Resolved, print (OutError Part001.no_consumers) st1))
  /\ (consumers (snd (Part000.stacktracify W mapPath file debug)) = [] ->
      nothing_rendered (snd (Part000.stacktracify W mapPath file debug)))
  /\ (falsy_mapPath mapPath = false ->
      consumers (snd (Part000.loadConsumers W debug mapPath initial)) = [] ->
      Part000.stacktracify W mapPath file debug
      = (Resolved, print OutNoConsumers (snd (Part000.loadConsumers W debug mapPath initial)))).
Proof.
  intros W mapPath file debug. split; [|split; [|split]].
  - intros E. destruct (run_001_cases W mapPath file debug) as [H|H]; [exact H|congruence].
  - intros Hf st1 Hl Hc. unfold Part001.stacktracify.
    rewrite (body_001_unfold _ _ _ _ Hf), Hl, Hc. reflexivity.
  - intros E. destruct (run_000_cases W mapPath file debug) as [H|H]; [exact H|congruence].
  - intros Hf Hc. unfold Part000.stacktracify.
    rewrite (body_000_unfold _ _ _ _ Hf).
    pose proof (loadConsumers_000_ends W debug mapPath initial) as Hn.
    destruct (Part000.loadConsumers W debug mapPath initial) as [r st1].
    simpl in Hn, Hc. subst r. rewrite Hc. reflexivity.
Qed.

Lemma C3_witness :
  fst (Part001.stacktracify sample_world (MPArray [js "bad.map"]) None false) = Resolved
  /\ console (snd (Part001.stacktracify sample_world (MPArray [js "bad.map"]) None false))
     = [OutLoadError (JsError (js "Unexpected end of JSON input"));
        OutError Part001.no_consumers].
Proof.
  rewrite (proj1 (proj2 (C3_no_tables_no_trace sample_world (MPArray [js "bad.map"]) None false))
             eq_refl
             (snd (Part001.loadConsumers sample_world false (MPArray [js "bad.map"]) initial))
             eq_refl eq_refl).
  split; reflexivity.
Defined.

(** C3 as stated fails in [part_001]: when the first map file reads back
    empty, [if (!file) return;] leaves [stacktracify] at once; no table was
    loaded, and no error is reported. *)
Lemma C3_counterexample :
  fst (Part001.stacktracify sample_world (MPArray [js "empty.map"]) None false) = Resolved
  /\ consumers (snd (Part001.stacktracify sample_world (MPArray [js "empty.map"]) None false))
     = []
  /\ console (snd (Part001.stacktracify sample_world (MPArray [js "empty.map"]) None false))
     = [].
Proof. repeat split; vm_compute; reflexivity. Qed.

(** ** No error reaches the caller *)








(** The round trip of the specification: one table, one frame. *)
Example round_trip :
  console (snd (Part001.stacktracify sample_world (MPArray [js "good.map"])
                  (Some (js "trace.txt")) false))
  = [OutHeader (js "Error: boom"); OutFrame (js "    at foo (src/foo.ts:5:2)")].
Proof. vm_compute. reflexivity. Qed.

(** * Further properties of the code *)

(** ** The resolver and the renderer as pure functions *)

Lemma scan_pure debug lookup : forall pending index st,
  fst (scan debug lookup pending index st) = resolve_pure (lookups pending) lookup
  /\ console (snd (scan debug lookup pending index st))
     = console st ++ (if debug
                      then repeat (OutDebug debug_lookup_line)
                                  (answered (lookups pending) lookup)
                      else [])
  /\ queries_of (trace (snd (scan debug lookup pending index st)))
     = queries_of (trace st) ++ seq index (asked (lookups pending) lookup).
Proof.
  induction pending as [|c rest IH]; intros index st.
  - simpl. destruct debug; rewrite !app_nil_r; auto.
  - simpl. destruct (originalPositionFor c lookup) as [v|e].
    + destruct (truthy_line v).
      * destruct debug, (preferredConsumerOrder st) eqn:Hp, (Nat.eqb index 0);
          repeat (progress (simpl; rewrite ?Hp, ?queries_of_app, ?app_nil_r));
          auto.
      * destruct (IH (S index)
                    (if debug then print (OutDebug debug_lookup_line)
                                    (record (EvQuery index lookup) st)
                     else record (EvQuery index lookup) st)) as (H1 & H2 & H3).
        rewrite H1, H2, H3. split; [reflexivity|].
        destruct debug; simpl; rewrite queries_of_app; simpl; rewrite <- !app_assoc; auto.
    + simpl. rewrite queries_of_app. destruct debug; rewrite ?app_nil_r; auto.
Qed.

Lemma findPosition_pure debug lookup st :
  fst (findPositionInAllSourceMaps debug lookup st)
    = resolve_pure (lookups (consumers st)) lookup
  /\ console (snd (findPositionInAllSourceMaps debug lookup st))
     = console st ++ (if debug
                      then repeat (OutDebug debug_lookup_line)
                                  (answered (lookups (consumers st)) lookup)
                      else [])
  /\ queries_of (trace (snd (findPositionInAllSourceMaps debug lookup st)))
     = queries_of (trace st) ++ seq 0 (asked (lookups (consumers st)) lookup).
Proof.
  unfold findPositionInAllSourceMaps.
  destruct (consumers st) as [|c cs] eqn:E.
  - simpl. destruct debug; rewrite !app_nil_r; auto.
  - apply scan_pure.
Qed.

Lemma resolve_pure_truthy tables lookup pos :
  resolve_pure tables lookup = Ok (Some pos) -> truthy_line pos = true.
Proof.
  induction tables as [|t rest IH]; simpl; [discriminate|].
  destruct (t lookup) as [v|e]; [|discriminate].
  destruct (truthy_line v) eqn:Hv; [|exact IH].
  intros [= <-]. exact Hv.
Qed.

Lemma asked_bound tables lookup : (asked tables lookup <= length tables)%nat.
Proof.
  induction tables as [|t rest IH]; simpl; [lia|].
  destruct (t lookup) as [v|e]; [destruct (truthy_line v)|]; lia.
Qed.

(** Whatever the resolver returns carries a line that is a number other
    than 0, so the renderer's test [pos && pos.line != null] never fails on
    a defined [pos]. *)
Theorem resolver_result_has_a_line :
  forall (debug : bool) (lookup : Lookup) (st : state) (pos : LookupResult),
  fst (findPositionInAllSourceMaps debug lookup st) = Ok (Some pos) ->
  exists z : Z, orig_line pos = Some z /\ z <> 0%Z.
Proof.
  intros debug lookup st pos H.
  rewrite (proj1 (findPosition_pure debug lookup st)) in H.
  apply resolve_pure_truthy in H. unfold truthy_line in H.
  destruct (orig_line pos) as [z|]; [|discriminate].
  exists z. split; [reflexivity|].
  destruct (Z.eqb_spec z 0); [discriminate|assumption].
Qed.

Lemma resolver_result_has_a_line_witness :
  exists z : Z, orig_line foo_ts = Some z /\ z <> 0%Z.
Proof.
  exact (resolver_result_has_a_line false lookup_1_10
           (with_tables [table_miss; table_foo]) foo_ts eq_refl).
Defined.

(** For one frame the resolver asks the tables 0, 1, ..., k-1 in that
    order, each once, for some k that is at most the number of tables. *)
Theorem resolver_asks_a_prefix :
  forall (debug : bool) (lookup : Lookup) (st : state),
  queries_of (trace (snd (findPositionInAllSourceMaps debug lookup st)))
    = queries_of (trace st) ++ seq 0 (asked (lookups (consumers st)) lookup)
  /\ (asked (lookups (consumers st)) lookup <= length (consumers st))%nat.
Proof.
  intros debug lookup st. split.
  - apply findPosition_pure.
  - pose proof (asked_bound (lookups (consumers st)) lookup) as H.
    unfold lookups in H. rewrite length_map in H. exact H.
Qed.

Lemma renderFrame_keeps_order debug f st :
  lookups (consumers (renderFrame debug f st)) = lookups (consumers st).
Proof.
  unfold renderFrame.
  destruct (lineNumber f) as [n|]; [|reflexivity].
  destruct (n <? 1)%Z; [reflexivity|].
  pose proof (findPosition_keeps_order debug {| lk_line := n; lk_column := column f |} st)
    as H.
  destruct (findPositionInAllSourceMaps debug _ st) as [[[pos|]|e] st']; simpl in *;
    [destruct (orig_line pos)|..]; exact H.
Qed.

(** A rendering pass never changes which table sits at which index of the
    Table Set, nor how many tables there are. *)
Theorem rendering_keeps_the_tables :
  forall (debug : bool) (stack : list StackFrame) (st : state),
  lookups (consumers (renderAll debug stack st)) = lookups (consumers st)
  /\ length (consumers (renderAll debug stack st)) = length (consumers st).
Proof.
  intros debug stack.
  assert (H : forall st,
             lookups (consumers (renderAll debug stack st)) = lookups (consumers st)).
  { induction stack as [|f rest IH]; intros st; simpl; [reflexivity|].
    rewrite IH. apply renderFrame_keeps_order. }
  intros st. split; [apply H|].
  pose proof (f_equal (@length _) (H st)) as L.
  unfold lookups in L. rewrite !length_map in L. exact L.
Qed.

Lemma renderFrame_console debug f st :
  console (renderFrame debug f st)
  = console st ++ frame_output debug (lookups (consumers st)) f.
Proof.
  unfold renderFrame, frame_output.
  destruct (lineNumber f) as [n|]; [|reflexivity].
  destruct (n <? 1)%Z; [reflexivity|].
  destruct (findPosition_pure debug {| lk_line := n; lk_column := column f |} st)
    as (H1 & H2 & _).
  destruct (findPositionInAllSourceMaps debug _ st) as [r st']. simpl in H1, H2.
  rewrite <- H1. destruct r as [[pos|]|e].
  - symmetry in H1. apply resolve_pure_truthy in H1. unfold truthy_line in H1.
    destruct (orig_line pos) eqn:El; [|discriminate].
    simpl. rewrite H2, <- app_assoc. reflexivity.
  - simpl. rewrite H2, app_nil_r. reflexivity.
  - simpl. rewrite H2, <- app_assoc. reflexivity.
Qed.

Lemma renderAll_console debug : forall stack st,
  console (renderAll debug stack st)
  = console st ++ flat_map (frame_output debug (lookups (consumers st))) stack.
Proof.
  induction stack as [|f rest IH]; intros st; simpl.
  - rewrite app_nil_r. reflexivity.
  - rewrite IH, renderFrame_keeps_order, renderFrame_console, <- app_assoc. reflexivity.
Qed.

(** The console output of a rendering pass is the concatenation, in frame
    order, of what each frame yields against the tables in their initial
    order; it does not depend on the preference flag, on the properties
    written on the consumers, or on what earlier frames did.  In
    particular a frame whose lookup throws costs only its own line. *)
Theorem rendering_is_frame_by_frame :
  forall (debug : bool) (stack : list StackFrame) (st : state),
  console (renderAll debug stack st)
  = console st ++ flat_map (frame_output debug (lookups (consumers st))) stack.
Proof.
  intros debug stack. induction stack as [|f rest IH]; intros st; simpl.
  - rewrite app_nil_r. reflexivity.
  - rewrite IH, renderFrame_keeps_order, renderFrame_console, <- app_assoc. reflexivity.
Qed.

(** Without debug logging every frame adds at most one console line. *)
Theorem at_most_one_line_per_frame :
  forall (stack : list StackFrame) (st : state),
  (length (console (renderAll false stack st)) <= length (console st) + length stack)%nat.
Proof.
  intros stack st. rewrite renderAll_console, length_app.
  apply Nat.add_le_mono_l.
  induction stack as [|f rest IH]; simpl; [lia|].
  rewrite length_app.
  assert (length (frame_output false (lookups (consumers st)) f) <= 1)%nat.
  { unfold frame_output. destruct (lineNumber f) as [n|]; [|simpl; lia].
    destruct (n <? 1)%Z; [simpl; lia|]. simpl.
    destruct (resolve_pure _ _) as [[pos|]|e]; simpl; lia. }
  lia.
Qed.

Lemma single_table_scan debug lookup c st :
  swaps_of (trace (snd (scan debug lookup [c] 0 st))) = swaps_of (trace st).
Proof.
  simpl. destruct (originalPositionFor c lookup) as [v|e]; simpl.
  - destruct (truthy_line v), debug, (preferredConsumerOrder st) eqn:Hp;
      repeat (progress (simpl; rewrite ?Hp, ?swaps_of_app)); lia.
  - rewrite swaps_of_app. simpl. lia.
Qed.

Lemma single_table_frame debug f st :
  holds 1 st ->
  swaps_of (trace (renderFrame debug f st)) = swaps_of (trace st).
Proof.
  unfold holds. intros H. unfold renderFrame.
  destruct (lineNumber f) as [n|]; [|reflexivity].
  destruct (n <? 1)%Z; [reflexivity|].
  unfold findPositionInAllSourceMaps.
  destruct (consumers st) as [|c [|d cs]]; try discriminate.
  pose proof (single_table_scan debug {| lk_line := n; lk_column := column f |} c st) as Hs.
  destruct (scan debug _ [c] 0 st) as [[[pos|]|e] st']; simpl in *;
    [destruct (orig_line pos)|..]; exact Hs.
Qed.

(** With a single table the swap branch never runs: the first success is
    at index 0, which only sets the flag. *)
Theorem single_table_never_swaps :
  forall (debug : bool) (stack : list StackFrame) (st : state),
  length (consumers st) = 1%nat ->
  swaps_of (trace (renderAll debug stack st)) = swaps_of (trace st).
Proof.
  intros debug stack. induction stack as [|f rest IH]; intros st H; simpl; [reflexivity|].
  rewrite IH.
  - apply single_table_frame. exact H.
  - apply (renderFrame_holds debug f 1 st H).
Qed.

Lemma single_table_never_swaps_witness :
  swaps_of (trace (renderAll false [frame_foo; frame_foo] (with_tables [table_foo]))) = 0%nat.
Proof.
  exact (single_table_never_swaps false [frame_foo; frame_foo]
           (with_tables [table_foo]) eq_refl).
Defined.

(** ** The normaliser and the line splitting *)

(** A line that does not begin with whitespace (an unindented frame, or the
    empty line), or that ends with whitespace, is returned unchanged. *)
Theorem normalize_needs_indent_and_no_trailing_blank :
  forall l : jsstring,
  stops is_space l \/ (exists l' c, l = l' ++ [c] /\ is_space c = true) ->
  normalize l = l.
Proof.
  intros l H. unfold normalize. rewrite exec_frame_re_none; [reflexivity|].
  intros (ws & file & ln & col & ws' & method & B).
  destruct B as (E & Hws0 & Hws & _ & _ & _ & _ & _ & _ & _ & _ & Hm0 & Hm).
  destruct H as [H|(l' & c & E' & Hc)].
  - destruct ws as [|w ws]; [congruence|]. subst l. simpl in H, Hws.
    apply andb_prop in Hws as [Hw _]. congruence.
  - destruct (@List.exists_last _ method Hm0) as (m' & (x & ->)).
    rewrite forallb_app in Hm. apply andb_prop in Hm as [_ Hx]. simpl in Hx.
    rewrite E' in E. rewrite !app_assoc in E. apply app_inj_tail in E as [_ ->].
    unfold non_space in Hx. rewrite Hc in Hx. discriminate.
Qed.

Lemma normalize_needs_indent_witness :
  normalize (js "index-abc123.js:2:5 bar") = js "index-abc123.js:2:5 bar".
Proof.
  exact (normalize_needs_indent_and_no_trailing_blank
           (js "index-abc123.js:2:5 bar") (or_introl eq_refl)).
Defined.

Lemma split_join_aux : forall (n : nat) (s cur : jsstring),
  (length s <= n)%nat ->
  split_lines cur s <> []
  /\ join_lines (split_lines cur s) = cur ++ lf_only s.
Proof.
  assert (J : forall (l : jsstring) ls, ls <> [] ->
                join_lines (l :: ls) = l ++ 10 :: join_lines ls).
  { intros l [|x ls] H; [congruence|reflexivity]. }
  induction n as [|n IH]; intros s cur Hn.
  - destruct s; [|simpl in Hn; lia]. simpl. rewrite app_nil_r. split; [discriminate|reflexivity].
  - destruct s as [|c s]; [simpl; rewrite app_nil_r; split; [discriminate|reflexivity]|].
    simpl in Hn. simpl split_lines.
    destruct (N.eqb_spec c 10) as [->|Hc].
    + destruct (IH s [] ltac:(lia)) as [H1 H2].
      split; [discriminate|]. rewrite J, H2 by exact H1.
      destruct s; reflexivity.
    + destruct s as [|d s].
      * simpl. split; [discriminate|]. reflexivity.
      * destruct ((c =? 13) && (d =? 10)) eqn:Hcr.
        -- apply andb_prop in Hcr as [Hc13 Hd].
           apply N.eqb_eq in Hc13. apply N.eqb_eq in Hd. subst c d.
           simpl in Hn. destruct (IH s [] ltac:(lia)) as [H1 H2].
           split; [discriminate|]. rewrite J, H2 by exact H1.
           destruct s; reflexivity.
        -- destruct (IH (d :: s) (cur ++ [c]) ltac:(simpl in *; lia)) as [H1 H2].
           split; [exact H1|]. rewrite H2, <- app_assoc.
           change (lf_only (c :: d :: s))
             with (if (c =? 13) && (d =? 10) then lf_only (d :: s) else c :: lf_only (d :: s)).
           rewrite Hcr. reflexivity.
Qed.

(** Splitting on [/\r?\n/] and joining with a line feed gives the text back
    with every CR LF pair turned into LF, and nothing else changed. *)
Theorem join_after_split : forall s : jsstring,
  join_lines (split_lines [] s) = lf_only s.
Proof. intros s. apply (split_join_aux (length s) s []). lia. Qed.

Lemma split_no_lf_aux : forall (n : nat) (s cur : jsstring),
  (length s <= n)%nat -> ~ In 10 cur ->
  Forall (fun l => ~ In 10 l) (split_lines cur s).
Proof.
  induction n as [|n IH]; intros s cur Hn Hcur.
  - destruct s; [|simpl in Hn; lia]. simpl. auto.
  - destruct s as [|c s]; [simpl; auto|].
    simpl in Hn. simpl split_lines.
    destruct (N.eqb_spec c 10) as [->|Hc].
    + constructor; [exact Hcur|]. apply IH; [lia|]. intros [].
    + assert (Hcur' : ~ In 10 (cur ++ [c])).
      { rewrite in_app_iff. simpl. intros [H|[H|[]]]; [auto|congruence]. }
      destruct s as [|d s].
      * simpl. auto.
      * destruct ((c =? 13) && (d =? 10)).
        -- constructor; [exact Hcur|]. apply IH; [simpl in Hn; lia|]. intros [].
        -- apply IH; [simpl in *; lia|exact Hcur'].
Qed.

(** No line handed to the normaliser contains a line feed, so the [$] of
    its pattern can only stand at the end of a line. *)
Theorem lines_have_no_line_feed : forall s : jsstring,
  Forall (fun l => ~ In 10 l) (split_lines [] s).
Proof. intros s. apply (split_no_lf_aux (length s)); [lia|]. intros []. Qed.

(** ** The loaders *)

Lemma load_one_001_log W debug m c st :
  loads W m c ->
  exists st', Part001.load_one W debug m st = (Normal tt, st')
              /\ consumers st' = consumers st ++ [c]
              /\ console st' = console st ++ loading_log debug m.
Proof.
  intros (text & doc & Hr & Ht & Hp & Hn).
  unfold Part001.load_one, bind, call, when, say, modify, ret, push, loading_log.
  destruct debug; simpl; rewrite Hr; simpl;
    (destruct text as [|x text]; [congruence|]);
    rewrite Hp; simpl; rewrite Hn; simpl;
    eexists; (split; [reflexivity|]); simpl; rewrite <- ?app_assoc, ?app_nil_r; auto.
Qed.

Lemma load_array_001_all W debug : forall ms cs st,
  Forall2 (loads W) ms cs ->
  exists st', Part001.load_array W debug ms st = (Normal tt, st')
              /\ consumers st' = consumers st ++ cs
              /\ console st' = console st ++ flat_map (loading_log debug) ms.
Proof.
  induction ms as [|m ms IH]; intros cs st H.
  - inversion H; subst. exists st. simpl. rewrite !app_nil_r. auto.
  - inversion H as [|? c ? cs' Hm Hrest]; subst. simpl.
    destruct (load_one_001_log W debug m c st Hm) as (st1 & H1 & H2 & H3).
    destruct (IH cs' st1 Hrest) as (st2 & H4 & H5 & H6).
    exists st2. rewrite (bind_normal _ _ _ _ _ H1), H4, H5, H6, H2, H3, <- !app_assoc. auto.
Qed.

Lemma load_array_000_all W debug : forall ms cs st,
  Forall2 (loads W) ms cs ->
  exists st', Part000.load_array W debug ms st = (Normal tt, st')
              /\ consumers st' = consumers st ++ cs.
Proof.
  induction ms as [|m ms IH]; intros cs st H.
  - inversion H; subst. exists st. simpl. rewrite !app_nil_r. auto.
  - inversion H as [|? c ? cs' Hm Hrest]; subst. simpl.
    destruct (load_one_000_ok W debug m c st Hm) as (st1 & H1 & H2).
    destruct (IH cs' st1 Hrest) as (st2 & H4 & H5).
    exists st2. rewrite (bind_normal _ _ _ _ _ H1), H4, H5, H2, <- !app_assoc. auto.
Qed.

(** When every document of the array is well formed, the Table Set holds
    one table per document, in the order of the map paths, in both
    sequential revisions. *)
Theorem tables_follow_the_map_paths :
  forall (W : world) (debug : bool) (ms : list jsstring) (cs : list Consumer),
  Forall2 (loads W) ms cs ->
  (fst (Part001.loadConsumers W debug (MPArray ms) initial) = Normal tt
   /\ consumers (snd (Part001.loadConsumers W debug (MPArray ms) initial)) = cs)
  /\ (fst (Part000.loadConsumers W debug (MPArray ms) initial) = Normal tt
      /\ consumers (snd (Part000.loadConsumers W debug (MPArray ms) initial)) = cs).
Proof.
  intros W debug ms cs H. split.
  - destruct (load_array_001_all W debug ms cs initial H) as (st1 & H1 & H2 & _).
    unfold Part001.loadConsumers, try_catch. rewrite (bind_normal _ _ _ _ _ H1).
    destruct debug; simpl; auto.
  - destruct (load_array_000_all W debug ms cs initial H) as (st1 & H1 & H2).
    unfold Part000.loadConsumers, try_catch. rewrite (bind_normal _ _ _ _ _ H1).
    destruct debug; simpl; auto.
Qed.

Lemma tables_follow_the_map_paths_witness :
  consumers (snd (Part001.loadConsumers sample_world false
                    (MPArray [js "good.map"]) initial))
  = [consumer_of table_foo].
Proof.
  exact (proj2 (proj1 (tables_follow_the_map_paths sample_world false
                         [js "good.map"] [consumer_of table_foo] good_maps_load))).
Defined.




Lemma bind_return {A B : Type} (m : M A) (f : A -> M B) st st' :
  m st = (Return, st') -> bind m f st = (Return, st').
Proof. unfold bind. intros ->. reflexivity. Qed.

Lemma load_array_001_empty_file W debug m post : forall pre cs st,
  Forall2 (loads W) pre cs -> readFile W m = Ok [] ->
  exists st', Part001.load_array W debug (pre ++ m :: post) st = (Return, st')
              /\ consumers st' = consumers st ++ cs
              /\ console st' = console st ++ flat_map (loading_log debug) pre
                   ++ (if debug
                       then [OutDebug (js "Loading " ++ m ++ js " as source map consumer!")]
                       else []).
Proof.
  induction pre as [|m0 pre IH]; intros cs st Hpre Hm.
  - inversion Hpre; subst. simpl.
    unfold bind, Part001.load_one, bind, call, when, say, modify, ret.
    destruct debug; simpl; rewrite Hm; simpl;
      eexists; (split; [reflexivity|]); simpl; rewrite ?app_nil_r; auto.
  - inversion Hpre as [|? c ? cs' Hm0 Hrest]; subst. simpl.
    destruct (load_one_001_log W debug m0 c st Hm0) as (st1 & H1 & H2 & H3).
    destruct (IH cs' st1 Hrest Hm) as (st2 & H4 & H5 & H6).
    exists st2. rewrite (bind_normal _ _ _ _ _ H1), H4, H5, H6, H2, H3, <- !app_assoc. auto.
Qed.

(** In [part_001] a map file that reads back empty ends the whole run at
    once and without a word: the tables loaded before it are dropped with
    everything else, the trace is never read, and the console holds only
    the debug lines printed so far (nothing at all without [debug]). *)
Theorem empty_map_file_ends_the_run_silently :
  forall (W : world) (debug : bool) (pre post : list jsstring) (m : jsstring)
         (cs : list Consumer) (file : option jsstring),
  Forall2 (loads W) pre cs -> readFile W m = Ok [] ->
  fst (Part001.stacktracify W (MPArray (pre ++ m :: post)) file debug) = Resolved
  /\ console (snd (Part001.stacktracify W (MPArray (pre ++ m :: post)) file debug))
     = flat_map (loading_log debug) pre
       ++ (if debug
           then [OutDebug (js "Loading " ++ m ++ js " as source map consumer!")]
           else []).
Proof.
  intros W debug pre post m cs file Hpre Hm.
  unfold Part001.stacktracify.
  rewrite (body_001_unfold W (MPArray (pre ++ m :: post)) file debug eq_refl).
  destruct (load_array_001_empty_file W debug m post pre cs initial Hpre Hm)
    as (st1 & H1 & _ & H3).
  unfold Part001.loadConsumers, try_catch. rewrite (bind_return _ _ _ _ H1).
  simpl. split; [reflexivity|exact H3].
Qed.

Lemma empty_map_file_witness :
  console (snd (Part001.stacktracify sample_world
                  (MPArray ([js "good.map"] ++ js "empty.map" :: [js "good.map"]))
                  (Some (js "trace.txt")) false))
  = [].
Proof.
  exact (proj2 (empty_map_file_ends_the_run_silently sample_world false
                  [js "good.map"] [js "good.map"] (js "empty.map")
                  [consumer_of table_foo] (Some (js "trace.txt"))
                  good_maps_load eq_refl)).
Defined.

(** An empty array of map paths is not a missing map path: no help is
    shown, nothing is read, and the run ends with the "Unable to resolve
    source map consumers!" report. *)
Theorem empty_array_of_map_paths :
  forall (W : world) (file : option jsstring) (debug : bool),
  (fst (Part001.stacktracify W (MPArray []) file debug) = Resolved
   /\ trace (snd (Part001.stacktracify W (MPArray []) file debug)) = []
   /\ List.filter (fun o => negb (is_debug_out o))
        (console (snd (Part001.stacktracify W (MPArray []) file debug)))
      = [OutError Part001.no_consumers])
  /\ (fst (Part000.stacktracify W (MPArray []) file debug) = Resolved
      /\ trace (snd (Part000.stacktracify W (MPArray []) file debug)) = []
      /\ List.filter (fun o => negb (is_debug_out o))
           (console (snd (Part000.stacktracify W (MPArray []) file debug)))
         = [OutNoConsumers]).
Proof.
  intros W file debug. destruct debug; repeat split; reflexivity.
Qed.

(** ** Whole runs *)

Section Bodies.
Variable P : state -> Prop.
Hypothesis P_print : forall o st, is_trace_line o = false -> P st -> P (print o st).
Hypothesis P_record : forall e st,
  is_parse_event e = false -> swaps_of [e] = 0%nat -> P st -> P (record e st).
Hypothesis P_consumers : forall cs st, P st -> P (set_consumers cs st).

Lemma body_001_preserves W mapPath file debug :
  preserves P (Part001.after_load W file debug) ->
  preserves P (Part001.body W mapPath file debug).
Proof.
  intros Hafter. unfold Part001.body.
  apply preserves_try_catch;
    [|intros e; apply preserves_modify; intros st; apply P_print; reflexivity].
  apply preserves_bind;
    [apply preserves_when, preserves_showHelp; exact P_print|intros _].
  apply preserves_bind;
    [apply loadConsumers_001_preserves; assumption|intros _].
  apply preserves_bind; [apply preserves_get|intros st1].
  destruct (consumers st1); [apply preserves_throw|exact Hafter].
Qed.

Lemma body_000_preserves W mapPath file debug :
  preserves P (Part000.after_load W file debug) ->
  preserves P (Part000.body W mapPath file debug).
Proof.
  intros Hafter. unfold Part000.body.
  apply preserves_try_catch;
    [|intros e; apply preserves_modify; intros st; apply P_print; reflexivity].
  apply preserves_bind;
    [apply preserves_when, preserves_showHelp; exact P_print|intros _].
  apply preserves_bind;
    [apply loadConsumers_000_preserves; assumption|intros _].
  apply preserves_bind; [apply preserves_get|intros st1].
  destruct (consumers st1); [|exact Hafter].
  apply preserves_bind;
    [apply preserves_modify; intros st; apply P_print; reflexivity|intros _].
  apply preserves_return.
Qed.

End Bodies.

Lemma no_trace_lines_print o st :
  is_trace_line o = false -> no_trace_lines st -> no_trace_lines (print o st).
Proof.
  unfold no_trace_lines. simpl. intros Ho H.
  rewrite List.filter_app, H. simpl. rewrite Ho. reflexivity.
Qed.

Lemma after_load_001_fatal W file debug err :
  fatal_after_load W file = Some err ->
  preserves no_trace_lines (Part001.after_load W file debug).
Proof.
  intros H st Hst. unfold fatal_after_load, trace_source in H.
  unfold Part001.after_load, bind, call, render.
  change (fun str : jsstring =>
            join_lines (List.map normalize (tl (split_lines [] (trim str)))))
    with parser_input in *.
  destruct file as [f|];
    [destruct (readFile W f) as [str|e]|destruct (clipboard_read W) as [str|e]];
    simpl; try exact Hst;
    change (join_lines (List.map normalize (tl (split_lines [] (trim str)))))
      with (parser_input str);
    unfold bind, call;
    destruct (stackTraceParser_parse W (parser_input str)) as [[|fr rest]|e];
    simpl; try exact Hst; discriminate.
Qed.

Lemma after_load_000_fatal W file debug err :
  fatal_after_load W file = Some err ->
  preserves no_trace_lines (Part000.after_load W file debug).
Proof.
  intros H st Hst. unfold fatal_after_load, trace_source in H.
  unfold Part000.after_load, bind, call, when, say, modify, ret, return_, render.
  destruct file as [f|];
    [destruct (readFile W f) as [str|e]|destruct (clipboard_read W) as [str|e]];
    destruct debug; simpl;
    try (apply no_trace_lines_print; [reflexivity|exact Hst]);
    try exact Hst;
    destruct (Nat.eqb (length str) 0 || negb (includes (js "at") str)); simpl;
    try (repeat (apply no_trace_lines_print; [reflexivity|]); exact Hst);
    change (join_lines (List.map normalize (tl (split_lines [] (trim str)))))
      with (parser_input str);
    unfold bind, call;
    destruct (stackTraceParser_parse W (parser_input str)) as [[|fr rest]|e];
    simpl; try discriminate;
    try (repeat (apply no_trace_lines_print; [reflexivity|]); exact Hst);
    exact Hst.
Qed.

(** The header is printed only after the parser has found a frame in the
    trace text of the run: when that text cannot be read, or the parser
    throws on it or finds no frame in it, a run prints no header line, no
    frame line and no failure line, whatever the map paths are. *)
Theorem no_frames_no_header :
  forall (W : world) (mapPath : MapPath) (file : option jsstring) (debug : bool)
         (err : exn),
  fatal_after_load W file = Some err ->
  no_trace_lines (snd (Part001.stacktracify W mapPath file debug))
  /\ no_trace_lines (snd (Part000.stacktracify W mapPath file debug)).
Proof.
  intros W mapPath file debug err HW.
  unfold Part001.stacktracify, Part000.stacktracify. rewrite !snd_finish. split.
  - apply (body_001_preserves no_trace_lines); try reflexivity.
    + apply no_trace_lines_print.
    + intros e st _ _ H. exact H.
    + intros cs st H. exact H.
    + apply (after_load_001_fatal W file debug err HW).
  - apply (body_000_preserves no_trace_lines); try reflexivity.
    + apply no_trace_lines_print.
    + intros e st _ _ H. exact H.
    + intros cs st H. exact H.
    + apply (after_load_000_fatal W file debug err HW).
Qed.

Lemma no_frames_no_header_witness :
  no_trace_lines (snd (Part001.stacktracify choosy_world (MPArray [js "good.map"])
                         (Some (js "good.map")) false)).
Proof.
  exact (proj1 (no_frames_no_header choosy_world (MPArray [js "good.map"])
                  (Some (js "good.map")) false (JsError (js "No stack found")) eq_refl)).
Defined.

(** In [choosy_world] the parser does find a frame in the text of
    [trace.txt]. *)
Example choosy_world_finds_a_frame :
  console (snd (Part001.stacktracify choosy_world (MPArray [js "good.map"])
                  (Some (js "trace.txt")) false))
  = [OutHeader (js "Error: boom"); OutFrame (js "    at foo (src/foo.ts:5:2)")].
Proof. vm_compute. reflexivity. Qed.

Lemma after_load_000_naive W file debug str :
  trace_source W file = Ok str ->
  Nat.eqb (length str) 0 || negb (includes (js "at") str) = true ->
  preserves nothing_rendered (Part000.after_load W file debug).
Proof.
  intros Hsrc Hcheck st H.
  unfold Part000.after_load, bind, call, when, say, modify, ret, return_.
  destruct file as [f|]; simpl in Hsrc; destruct debug; simpl; rewrite Hsrc; simpl;
    rewrite Hcheck; simpl;
    repeat first [ apply nothing_rendered_print; [reflexivity|]
                 | apply nothing_rendered_record; [reflexivity|] ];
    exact H.
Qed.

(** The naive check of [part_000]: when the trace text is empty or does not
    contain the letters [at], the parser is never called and no header or
    frame line is printed, whatever the maps are. *)
Theorem trace_without_at_is_not_parsed :
  forall (W : world) (mapPath : MapPath) (file : option jsstring) (debug : bool)
         (str : jsstring),
  trace_source W file = Ok str ->
  Nat.eqb (length str) 0 || negb (includes (js "at") str) = true ->
  nothing_rendered (snd (Part000.stacktracify W mapPath file debug)).
Proof.
  intros W mapPath file debug str Hsrc Hcheck.
  unfold Part000.stacktracify. rewrite snd_finish.
  apply (body_000_preserves nothing_rendered).
  - apply nothing_rendered_print.
  - intros e st He _. apply nothing_rendered_record, He.
  - intros cs st H. exact H.
  - apply (after_load_000_naive W file debug str Hsrc Hcheck).
  - exact nothing_rendered_initial.
Qed.

Lemma trace_without_at_witness :
  nothing_rendered (snd (Part000.stacktracify sample_world (MPArray [js "good.map"])
                           (Some (js "empty.map")) false)).
Proof.
  exact (trace_without_at_is_not_parsed sample_world (MPArray [js "good.map"])
           (Some (js "empty.map")) false [] eq_refl eq_refl).
Defined.

Lemma render_output W debug str stack st :
  stackTraceParser_parse W (parser_input str) = Ok stack -> stack <> [] ->
  fst (render W debug str st) = Normal tt
  /\ console (snd (render W debug str st))
     = console st ++ header_line str
       ++ flat_map (frame_output debug (lookups (consumers st))) stack.
Proof.
  intros Hp Hs. unfold render.
  change (join_lines (List.map normalize (tl (split_lines [] (trim str)))))
    with (parser_input str).
  change (hd [] (split_lines [] (trim str))) with (header_of str).
  unfold bind, call. rewrite Hp.
  destruct stack as [|f rest]; [congruence|].
  remember (f :: rest) as frames eqn:Ef.
  unfold when, say, modify, ret, header_line.
  destruct (header_of str) as [|h0 h]; simpl;
    (split; [reflexivity|]);
    rewrite (renderAll_console debug frames); simpl;
    rewrite <- ?app_assoc; reflexivity.
Qed.

(** The whole of a successful run of [part_001]: when every map document
    is well formed (and there is at least one), the trace text can be read
    and the parser finds frames in it, the call resolves and the console
    holds, in this order, the loader's debug lines, the header if it is not
    empty, and what each frame yields against the tables in map-path
    order. *)
Theorem successful_run_of_part_001 :
  forall (W : world) (debug : bool) (ms : list jsstring) (cs : list Consumer)
         (file : option jsstring) (str : jsstring) (stack : list StackFrame),
  Forall2 (loads W) ms cs -> ms <> [] ->
  trace_source W file = Ok str ->
  stackTraceParser_parse W (parser_input str) = Ok stack -> stack <> [] ->
  fst (Part001.stacktracify W (MPArray ms) file debug) = Resolved
  /\ console (snd (Part001.stacktracify W (MPArray ms) file debug))
     = flat_map (loading_log debug) ms
       ++ (if debug then [OutDebug (js "Loading source map consumers complete!")] else [])
       ++ header_line str
       ++ flat_map (frame_output debug (lookups cs)) stack.
Proof.
  intros W debug ms cs file str stack Hms Hne Hsrc Hp Hs.
  unfold Part001.stacktracify.
  rewrite (body_001_unfold W (MPArray ms) file debug eq_refl).
  destruct (load_array_001_all W debug ms cs initial Hms) as (st1 & H1 & H2 & H3).
  simpl in H2, H3.
  assert (Hload : exists st2,
             Part001.loadConsumers W debug (MPArray ms) initial = (Normal tt, st2)
             /\ consumers st2 = cs
             /\ console st2 = flat_map (loading_log debug) ms
                  ++ (if debug
                      then [OutDebug (js "Loading source map consumers complete!")]
                      else [])).
  { unfold Part001.loadConsumers, try_catch. rewrite (bind_normal _ _ _ _ _ H1).
    destruct debug; simpl; eexists; (split; [reflexivity|]); simpl;
      rewrite ?H3, ?app_nil_r; auto. }
  destruct Hload as (st2 & -> & Hc & Hout).
  assert (Hcs : cs <> []).
  { intros ->. inversion Hms; subst. congruence. }
  rewrite Hc. destruct cs as [|c0 cs0]; [congruence|]. rewrite <- Hc.
  unfold try_catch, Part001.after_load.
  assert (Hread : exists st3,
             match file with
             | Some f => call (EvReadFile f) (readFile W f)
             | None => call EvClipboard (clipboard_read W)
             end st2 = (Normal str, st3)
             /\ consumers st3 = consumers st2 /\ console st3 = console st2).
  { unfold call. destruct file as [f|]; simpl in Hsrc; rewrite Hsrc; eauto. }
  destruct Hread as (st3 & Hr & Hc3 & Ho3).
  rewrite (bind_normal _ _ _ _ _ Hr).
  destruct (render_output W debug str stack st3 Hp Hs) as [Hn Hcons].
  destruct (render W debug str st3) as [r st4]. simpl in Hn, Hcons. subst r. simpl.
  split; [reflexivity|].
  rewrite Hcons, Hc3, Ho3, Hout, <- !app_assoc. reflexivity.
Qed.

Lemma successful_run_witness :
  console (snd (Part001.stacktracify sample_world (MPArray [js "good.map"])
                  (Some (js "trace.txt")) false))
  = [OutHeader (js "Error: boom"); OutFrame (js "    at foo (src/foo.ts:5:2)")].
Proof.
  exact (proj2 (successful_run_of_part_001 sample_world false [js "good.map"]
                  [consumer_of table_foo] (Some (js "trace.txt")) boom_trace [frame_foo]
                  good_maps_load ltac:(discriminate) eq_refl eq_refl ltac:(discriminate))).
Defined.

Lemma loadConsumers_001_all W debug ms cs :
  Forall2 (loads W) ms cs ->
  exists st, Part001.loadConsumers W debug (MPArray ms) initial = (Normal tt, st)
             /\ consumers st = cs
             /\ console st = flat_map (loading_log debug) ms
                  ++ (if debug
                      then [OutDebug (js "Loading source map consumers complete!")]
                      else []).
Proof.
  intros Hms.
  destruct (load_array_001_all W debug ms cs initial Hms) as (st1 & H1 & H2 & H3).
  simpl in H2, H3.
  unfold Part001.loadConsumers, try_catch. rewrite (bind_normal _ _ _ _ _ H1).
  destruct debug; simpl; eexists; (split; [reflexivity|]); simpl;
    rewrite ?H3, ?app_nil_r; auto.
Qed.

Lemma read_trace_fails W file e st :
  trace_source W file = Raise e ->
  exists st', match file with
              | Some f => call (EvReadFile f) (readFile W f)
              | None => call EvClipboard (clipboard_read W)
              end st = (Throw e, st')
              /\ console st' = console st.
Proof.
  intros H. unfold call. destruct file as [f|]; simpl in H; rewrite H; eauto.
Qed.

Lemma read_trace_ok W file str st :
  trace_source W file = Ok str ->
  exists st', match file with
              | Some f => call (EvReadFile f) (readFile W f)
              | None => call EvClipboard (clipboard_read W)
              end st = (Normal str, st')
              /\ consumers st' = consumers st /\ console st' = console st.
Proof.
  intros H. unfold call. destruct file as [f|]; simpl in H; rewrite H; eauto.
Qed.

(** A fatal error after loading is reported once and leaves no partial
    trace: in [part_001], with every map document well formed, when the
    trace text cannot be read, or the parser throws or finds no frame, the
    call still resolves and the console holds the loader's debug lines
    followed by that one error. *)
Theorem fatal_error_after_loading :
  forall (W : world) (debug : bool) (ms : list jsstring) (cs : list Consumer)
         (file : option jsstring) (err : exn),
  Forall2 (loads W) ms cs -> ms <> [] ->
  fatal_after_load W file = Some err ->
  fst (Part001.stacktracify W (MPArray ms) file debug) = Resolved
  /\ console (snd (Part001.stacktracify W (MPArray ms) file debug))
     = flat_map (loading_log debug) ms
       ++ (if debug then [OutDebug (js "Loading source map consumers complete!")] else [])
       ++ [OutError err].
Proof.
  intros W debug ms cs file err Hms Hne Hfatal.
  unfold Part001.stacktracify.
  rewrite (body_001_unfold W (MPArray ms) file debug eq_refl).
  destruct (loadConsumers_001_all W debug ms cs Hms) as (st2 & -> & Hc & Hout).
  assert (Hcs : cs <> []).
  { intros ->. inversion Hms; subst. congruence. }
  rewrite Hc. destruct cs as [|c0 cs0]; [congruence|].
  unfold try_catch, Part001.after_load. unfold fatal_after_load in Hfatal.
  destruct (trace_source W file) as [str|e] eqn:Hsrc.
  - destruct (read_trace_ok W file str st2 Hsrc) as (st3 & Hr & _ & Ho3).
    rewrite (bind_normal _ _ _ _ _ Hr).
    unfold render.
    change (join_lines (List.map normalize (tl (split_lines [] (trim str)))))
      with (parser_input str).
    unfold bind, call.
    destruct (stackTraceParser_parse W (parser_input str)) as [[|f rest]|e];
      try discriminate; injection Hfatal as <-; simpl;
      rewrite Ho3, Hout, <- !app_assoc; auto.
  - injection Hfatal as <-.
    destruct (read_trace_fails W file e st2 Hsrc) as (st3 & Hr & Ho3).
    rewrite (bind_throw _ _ _ _ _ Hr). simpl.
    rewrite Ho3, Hout, <- !app_assoc. auto.
Qed.

Lemma fatal_error_after_loading_witness :
  console (snd (Part001.stacktracify frameless_world (MPArray [js "good.map"])
                  (Some (js "trace.txt")) false))
  = [OutError (JsError (js "No stack found"))].
Proof.
  exact (proj2 (fatal_error_after_loading frameless_world false [js "good.map"]
                  [consumer_of table_foo] (Some (js "trace.txt"))
                  (JsError (js "No stack found"))
                  good_maps_load ltac:(discriminate) eq_refl)).
Defined.

Lemma load_one_000_log W debug m c st :
  loads W m c ->
  exists st', Part000.load_one W debug m st = (Normal tt, st')
              /\ consumers st' = consumers st ++ [c]
              /\ console st' = console st ++ loading_log debug m.
Proof.
  intros (text & doc & Hr & Ht & Hp & Hn).
  unfold Part000.load_one, bind, call, when, say, modify, ret, push, loading_log.
  destruct debug; simpl; rewrite Hr; simpl;
    rewrite Hp; simpl; rewrite Hn; simpl;
    eexists; (split; [reflexivity|]); simpl; rewrite <- ?app_assoc, ?app_nil_r; auto.
Qed.

Lemma load_array_000_log W debug : forall ms cs st,
  Forall2 (loads W) ms cs ->
  exists st', Part000.load_array W debug ms st = (Normal tt, st')
              /\ consumers st' = consumers st ++ cs
              /\ console st' = console st ++ flat_map (loading_log debug) ms.
Proof.
  induction ms as [|m ms IH]; intros cs st H.
  - inversion H; subst. exists st. simpl. rewrite !app_nil_r. auto.
  - inversion H as [|? c ? cs' Hm Hrest]; subst. simpl.
    destruct (load_one_000_log W debug m c st Hm) as (st1 & H1 & H2 & H3).
    destruct (IH cs' st1 Hrest) as (st2 & H4 & H5 & H6).
    exists st2. rewrite (bind_normal _ _ _ _ _ H1), H4, H5, H6, H2, H3, <- !app_assoc. auto.
Qed.

(** The whole of a successful run of [part_000]: as in [part_001], with
    its own debug lines, provided the trace text passes the naive check
    (it is not empty and contains [at]). *)
Theorem successful_run_of_part_000 :
  forall (W : world) (debug : bool) (ms : list jsstring) (cs : list Consumer)
         (file : option jsstring) (str : jsstring) (stack : list StackFrame),
  Forall2 (loads W) ms cs -> ms <> [] ->
  trace_source W file = Ok str ->
  Nat.eqb (length str) 0 || negb (includes (js "at") str) = false ->
  stackTraceParser_parse W (parser_input str) = Ok stack -> stack <> [] ->
  fst (Part000.stacktracify W (MPArray ms) file debug) = Resolved
  /\ console (snd (Part000.stacktracify W (MPArray ms) file debug))
     = flat_map (loading_log debug) ms
       ++ (if debug
           then [OutDebug (js "Loaded " ++ show_Z (Z.of_nat (length cs))
                           ++ js " source map consumers!")]
           else [])
       ++ reading_log debug file
       ++ header_line str
       ++ flat_map (frame_output debug (lookups cs)) stack.
Proof.
  intros W debug ms cs file str stack Hms Hne Hsrc Hcheck Hp Hs.
  unfold Part000.stacktracify.
  rewrite (body_000_unfold W (MPArray ms) file debug eq_refl).
  destruct (load_array_000_log W debug ms cs initial Hms) as (st1 & H1 & H2 & H3).
  simpl in H2, H3.
  assert (Hload : exists st2,
             Part000.loadConsumers W debug (MPArray ms) initial = (Normal tt, st2)
             /\ consumers st2 = cs
             /\ console st2 = flat_map (loading_log debug) ms
                  ++ (if debug
                      then [OutDebug (js "Loaded " ++ show_Z (Z.of_nat (length cs))
                                      ++ js " source map consumers!")]
                      else [])).
  { unfold Part000.loadConsumers, try_catch. rewrite (bind_normal _ _ _ _ _ H1).
    unfold bind, get. rewrite H2.
    destruct debug; simpl; eexists; (split; [reflexivity|]); simpl;
      rewrite ?H3, ?app_nil_r; auto. }
  destruct Hload as (st2 & -> & Hc & Hout).
  assert (Hcs : cs <> []).
  { intros ->. inversion Hms; subst. congruence. }
  rewrite Hc. destruct cs as [|c0 cs0]; [congruence|]. rewrite <- Hc.
  unfold try_catch, Part000.after_load.
  assert (Hread : exists st3,
             match file with
             | Some f =>
                 (when debug (say (OutDebug (js "Reading stack trace as file from "
                                             ++ f ++ js "!")));;
                  call (EvReadFile f) (readFile W f))%js
             | None =>
                 (when debug (say (OutDebug (js "Reading stack trace from clipboard!")));;
                  call EvClipboard (clipboard_read W))%js
             end st2 = (Normal str, st3)
             /\ consumers st3 = consumers st2
             /\ console st3 = console st2 ++ reading_log debug file).
  { unfold bind, call, when, say, modify, ret, reading_log.
    destruct file as [f|]; simpl in Hsrc; destruct debug; simpl; rewrite Hsrc;
      eexists; (split; [reflexivity|]); simpl; rewrite ?app_nil_r; auto. }
  destruct Hread as (st3 & Hr & Hc3 & Ho3).
  rewrite (bind_normal _ _ _ _ _ Hr). cbv beta. rewrite Hcheck.
  destruct (render_output W debug str stack st3 Hp Hs) as [Hn Hcons].
  destruct (render W debug str st3) as [r st4]. simpl in Hn, Hcons. subst r. simpl.
  split; [reflexivity|].
  rewrite Hcons, Hc3, Ho3, Hout, <- !app_assoc, ?Hc. reflexivity.
Qed.

Lemma successful_run_of_part_000_witness :
  console (snd (Part000.stacktracify sample_world (MPArray [js "good.map"])
                  (Some (js "trace.txt")) false))
  = [OutHeader (js "Error: boom"); OutFrame (js "    at foo (src/foo.ts:5:2)")].
Proof.
  exact (proj2 (successful_run_of_part_000 sample_world false [js "good.map"]
                  [consumer_of table_foo] (Some (js "trace.txt")) boom_trace [frame_foo]
                  good_maps_load ltac:(discriminate) eq_refl eq_refl eq_refl
                  ltac:(discriminate))).
Defined.

(** ** A load failure in the sequential loaders *)

Lemma loadConsumers_001_stops W debug e bad post pre cs :
  Forall2 (loads W) pre cs -> load_error W bad = Some e -> readFile W bad <> Ok [] ->
  exists st', Part001.loadConsumers W debug (MPArray (pre ++ bad :: post)) initial
              = (Normal tt, print (OutLoadError e) st')
              /\ consumers st' = cs.
Proof.
  intros Hpre Hbad Hne.
  destruct (load_array_001_stops W debug e bad post pre cs initial Hpre Hbad Hne)
    as (st' & H1 & H2).
  exists st'. unfold Part001.loadConsumers, try_catch.
  rewrite (bind_throw _ _ _ _ _ H1). auto.
Qed.

Lemma loadConsumers_000_stops W debug e bad post pre cs :
  Forall2 (loads W) pre cs -> load_error W bad = Some e ->
  exists st', Part000.loadConsumers W debug (MPArray (pre ++ bad :: post)) initial
              = (Normal tt, print (OutLoadError e) st')
              /\ consumers st' = cs.
Proof.
  intros Hpre Hbad.
  destruct (load_array_000_stops W debug e bad post pre cs initial Hpre Hbad)
    as (st' & H1 & H2).
  exists st'. unfold Part000.loadConsumers, try_catch.
  rewrite (bind_throw _ _ _ _ _ H1). auto.
Qed.

(** C2, as the sequential loaders of [part_000] and [part_001] have it.
    One [try] encloses the whole loop.  When the documents before it are
    well formed and loading a document throws (its file cannot be read,
    [JSON.parse] throws on its text, or no consumer can be built from it),
    the error is caught and logged as the loader's last console line and
    the loader completes normally; the Table Set holds the tables of the
    documents before the failing one, in order, and nothing of the failing
    document or of those after it.  The failure does not end the run by
    itself: with at least one table the run goes on from there to read and
    render the trace; with none it ends with the "Unable to resolve source
    map consumers!" report.  In [part_001] this is for a file that does not
    read back empty: an empty text never reaches [JSON.parse]. *)
Theorem C2_load_failure_ends_the_loading :
  forall (W : world) (debug : bool) (pre post : list jsstring) (bad : jsstring)
         (cs : list Consumer) (e : exn) (file : option jsstring),
  Forall2 (loads W) pre cs -> load_error W bad = Some e ->
  (let mapPath := MPArray (pre ++ bad :: post) in
   let st1 := snd (Part000.loadConsumers W debug mapPath initial) in
   fst (Part000.loadConsumers W debug mapPath initial) = Normal tt
   /\ consumers st1 = cs
   /\ last (console st1) = Some (OutLoadError e)
   /\ (cs = [] ->
       Part000.stacktracify W mapPath file debug = (Resolved, print OutNoConsumers st1))
   /\ (cs <> [] ->
       Part000.stacktracify W mapPath file debug
       = finish (try_catch (Part000.after_load W file debug)
                           (fun err => say (OutError err)) st1)))
  /\ (readFile W bad <> Ok [] ->
      let mapPath := MPArray (pre ++ bad :: post) in
      let st1 := snd (Part001.loadConsumers W debug mapPath initial) in
      fst (Part001.loadConsumers W debug mapPath initial) = Normal tt
      /\ consumers st1 = cs
      /\ last (console st1) = Some (OutLoadError e)
      /\ (cs = [] ->
          Part001.stacktracify W mapPath file debug
          = (Resolved, print (OutError Part001.no_consumers) st1))
      /\ (cs <> [] ->
          Part001.stacktracify W mapPath file debug
          = finish (try_catch (Part001.after_load W file debug)
                              (fun err => say (OutError err)) st1))).
Proof.
  intros W debug pre post bad cs e file Hpre Hbad. split.
  - destruct (loadConsumers_000_stops W debug e bad post pre cs Hpre Hbad) as (st' & E & Hc).
    cbv zeta. unfold Part000.stacktracify.
    rewrite (body_000_unfold W (MPArray (pre ++ bad :: post)) file debug eq_refl), E.
    cbn [fst snd]. split; [reflexivity|]. split; [exact Hc|].
    split; [apply last_snoc|].
    change (consumers (print (OutLoadError e) st')) with (consumers st'). rewrite Hc.
    split; intros H; destruct cs; try congruence; reflexivity.
  - intros Hne.
    destruct (loadConsumers_001_stops W debug e bad post pre cs Hpre Hbad Hne)
      as (st' & E & Hc).
    cbv zeta. unfold Part001.stacktracify.
    rewrite (body_001_unfold W (MPArray (pre ++ bad :: post)) file debug eq_refl), E.
    cbn [fst snd]. split; [reflexivity|]. split; [exact Hc|].
    split; [apply last_snoc|].
    change (consumers (print (OutLoadError e) st')) with (consumers st'). rewrite Hc.
    split; intros H; destruct cs; try congruence; reflexivity.
Qed.

Lemma bad_map_fails :
  load_error sample_world (js "bad.map") = Some (JsError (js "Unexpected end of JSON input")).
Proof. reflexivity. Qed.

Lemma C2_witness :
  consumers (snd (Part001.loadConsumers sample_world false
                    (MPArray ([js "good.map"] ++ js "bad.map" :: [js "good.map"])) initial))
  = [consumer_of table_foo]
  /\ last (console (snd (Part001.loadConsumers sample_world false
                           (MPArray ([js "good.map"] ++ js "bad.map" :: [js "good.map"]))
                           initial)))
     = Some (OutLoadError (JsError (js "Unexpected end of JSON input"))).
Proof.
  pose proof (proj2 (C2_load_failure_ends_the_loading sample_world false
                       [js "good.map"] [js "good.map"] (js "bad.map") [consumer_of table_foo]
                       (JsError (js "Unexpected end of JSON input")) (Some (js "trace.txt"))
                       good_maps_load bad_map_fails)
                    ltac:(discriminate)) as (_ & H1 & H2 & _).
  split; [exact H1|exact H2].
Defined.

(** ** Every error is reported *)















Section Reports.
Context (W : world) {A B : Type}.







End Reports.

































